(** * Word-search puzzle: the grid views and the dictionary search

    A shallow embedding of [puzzle/app.py]: the [Grid] class with its
    derived views (letters, horizontal, vertical and diagonal lines),
    the generator pipeline [read_words], [filter_by_length],
    [filter_by_letters], and [Finder.find_words]; further on, the iterator
    protocol and the caches of a Grid instance, [as_table], and
    [GridMaker].

    Conventions of the embedding.
    - A Python [int] is a [Z]; [range(a, b)] is the list [seqZ a (b - a)].
    - A Python [str] is a [string]; a grid cell, which the program fills
      with [random.choice(ascii_lowercase)] and reads as a "letter", is one
      character, an [ascii].
    - A Python [set] is a [gset]; the order in which a set is iterated is
      left open (a parameter constrained to be a permutation of the
      elements).
    - Code that can raise returns a [result]; subscripting follows Python
      (a negative index counts from the end, anything else out of range
      raises [IndexError]).
    - A generator is a finite lazy stream [gen] whose tail may raise.
    - The random source is a sequence of draws; [random.choice(seq)] takes
      the item at the next draw reduced below [len(seq)]. *)

From Stdlib Require Import ZArith Ascii String.
From stdpp Require Import gmap strings list list_numbers.

Local Open Scope Z_scope.

(** ** Exceptions and fallible computations *)

Inductive exn : Set :=
  | IndexError
  | FileNotFoundError
  | PermissionError
  | OSError.

Inductive result (A : Type) : Type :=
  | Ok (a : A)
  | Raise (e : exn).

Arguments Ok {A} a.
Arguments Raise {A} e.

#[global] Instance result_ret : MRet result := @Ok.

#[global] Instance result_bind : MBind result :=
  λ A B f m, match m with Ok a => f a | Raise e => Raise e end.

(** [for x in xs: body] over a loop state [s], stopping at the first
    exception. *)
Fixpoint for_ {A S : Type} (xs : list A) (body : S → A → result S) (s : S)
    : result S :=
  match xs with
  | [] => Ok s
  | x :: xs' => s' ← body s x; for_ xs' body s'
  end.

(** ** Python built-ins used by the program *)

Abbreviation str := string (only parsing).

(** [range(start, stop)] *)
Definition range (start stop : Z) : list Z := seqZ start (stop - start).

(** [l[i]] on a list. *)
Definition getitem {A : Type} (l : list A) (i : Z) : result A :=
  let n := Z.of_nat (length l) in
  let j := if i <? 0 then i + n else i in
  if (0 <=? j) && (j <? n) then
    match l !! Z.to_nat j with
    | Some x => Ok x
    | None => Raise IndexError
    end
  else Raise IndexError.

(** [s[i]] on a string. *)
Definition str_getitem (s : str) (i : Z) : result ascii :=
  getitem (list_ascii_of_string s) i.

(** [len(s)] *)
Definition len (s : str) : Z := Z.of_nat (String.length s).

(** ["".join(letters)] for a list of one-character strings. *)
Definition join (letters : list ascii) : str := string_of_list_ascii letters.

(** [s[::-1]] *)
Definition reversed (s : str) : str :=
  string_of_list_ascii (rev (list_ascii_of_string s)).

(** Truth value of a string: [if s:]. *)
Definition str_bool (s : str) : bool :=
  match s with EmptyString => false | String _ _ => true end.

(** [sep.join(parts)] for a list of strings. *)
Fixpoint str_join (sep : str) (parts : list str) : str :=
  match parts with
  | [] => ""
  | [p] => p
  | p :: ps => p +:+ sep +:+ str_join sep ps
  end.

(** [s.startswith(w)] *)
Fixpoint startswith (w s : str) : bool :=
  match w, s with
  | EmptyString, _ => true
  | String _ _, EmptyString => false
  | String a w', String b s' => bool_decide (a = b) && startswith w' s'
  end.

(** [w in s]: [w] occurs in [s] as a contiguous substring. *)
Fixpoint str_in (w s : str) : bool :=
  startswith w s ||
  match s with
  | EmptyString => false
  | String _ s' => str_in w s'
  end.

(** [c.isspace()] for a code point below 256. *)
Definition isspace (c : ascii) : bool :=
  let n := nat_of_ascii c in
  bool_decide (n ∈ [9; 10; 11; 12; 13; 28; 29; 30; 31; 32; 133; 160]%nat).

Fixpoint lstrip (s : str) : str :=
  match s with
  | EmptyString => EmptyString
  | String c s' => if isspace c then lstrip s' else s
  end.

(** [s.strip()] *)
Definition strip (s : str) : str := reversed (lstrip (reversed (lstrip s))).

(** ** Generators *)

Inductive gen (A : Type) : Type :=
  | Stop
  | Yield (a : A) (rest : gen A)
  | Throw (e : exn).

Arguments Stop {A}.
Arguments Yield {A} a rest.
Arguments Throw {A} e.

(** A generator that yields the items of a list and stops. *)
Fixpoint gen_of_list {A : Type} (xs : list A) : gen A :=
  match xs with
  | [] => Stop
  | x :: xs' => Yield x (gen_of_list xs')
  end.

(** A generator that yields the items of a list and goes on as [rest]. *)
Fixpoint gen_app {A : Type} (xs : list A) (rest : gen A) : gen A :=
  match xs with
  | [] => rest
  | x :: xs' => Yield x (gen_app xs' rest)
  end.

(** ** The file system seen by [read_words]

    What [Path(path).exists()], [Path(path).is_file()] and
    [open(path, "r").readlines()] give for a path. Each of the three can
    raise: the two checks answer [False] for a path that is not there, but
    raise the error of the operating system for a path they cannot examine
    (a name that is too long, a directory that may not be searched). *)

Record Path : Type := {
  exists_ : result bool;
  is_file : result bool;
  readlines : result (list str)
}.

(** [p.exists() and p.is_file()]: the second check runs only when the
    first answers [True]. *)
Definition exists_and_is_file (p : Path) : result bool :=
  match exists_ p with
  | Raise e => Raise e
  | Ok false => Ok false
  | Ok true => is_file p
  end.

Definition read_words (fs : str → Path) (path : str) : gen str :=
  let p := fs path in
  match exists_and_is_file p with
  | Raise e => Throw e
  | Ok false => Throw FileNotFoundError
  | Ok true =>
      match readlines p with
      | Raise e => Throw e
      | Ok lines => gen_of_list (strip <$> lines)
      end
  end.

Fixpoint filter_by_letters (words : gen str) (letters : gset ascii)
    : gen str :=
  match words with
  | Stop => Stop
  | Throw e => Throw e
  | Yield word rest =>
      match str_getitem word 0 with
      | Raise e => Throw e
      | Ok first_letter =>
          if bool_decide (first_letter ∈ letters)
          then Yield word (filter_by_letters rest letters)
          else filter_by_letters rest letters
      end
  end.

Fixpoint filter_by_length (words : gen str) (length : Z) : gen str :=
  match words with
  | Stop => Stop
  | Throw e => Throw e
  | Yield word rest =>
      if len word <=? length
      then Yield word (filter_by_length rest length)
      else filter_by_length rest length
  end.

(** ** class Grid *)

Definition GRID_TYPE : Type := list (list ascii).

Module Grid.

(** The attributes [grid], [length] and [depth]. The cache attributes
    [_letters] and [_lines] only memoise the values of the properties
    below, and [_number] is the cursor of [__next__], which none of the
    views uses. *)
Record t : Type := {
  grid : GRID_TYPE;
  length : Z;
  depth : Z
}.

Definition __init__ (grid : GRID_TYPE) (length depth : Z) : result t :=
  Ok {| grid := grid; length := length; depth := depth |}.

Definition max_size (self : t) : Z := Z.max (length self) (depth self).

Definition letters (self : t) : gset ascii :=
  list_to_set (concat (grid self)).

Definition horizontal_lines (self : t) : list str :=
  foldl (λ rows row,
           let letters := join row in
           (rows ++ [letters]) ++ [reversed letters])
        [] (grid self).

(** [self.grid[i][j]] *)
Definition cell (self : t) (i j : Z) : result ascii :=
  row ← getitem (grid self) i; getitem row j.

Definition vertical_lines (self : t) : result (list str) :=
  for_ (range 0 (length self))
    (λ columns column_index,
       letters ← mapM (λ row_index, cell self row_index column_index)
                      (range 0 (depth self));
       let letters := join letters in
       Ok ((columns ++ [letters]) ++ [reversed letters]))
    [].

(** One turn of the inner loop of [diagonal_lines]. *)
Definition diagonal_step (self : t) (offset : Z)
    (acc : list ascii * list ascii) (column_index : Z)
    : result (list ascii * list ascii) :=
  let '(left_letters, right_letters) := acc in
  let right_index := column_index + offset in
  if column_index =? 0 then
    l ← cell self column_index right_index;
    r ← cell self column_index right_index;
    Ok (left_letters ++ [l], right_letters ++ [r])
  else
    right_letters ←
      (if right_index <? length self
       then r ← cell self column_index right_index;
            Ok (right_letters ++ [r])
       else Ok right_letters);
    let left_index := right_index - 2 in
    left_letters ←
      (if (left_index <? length self) && (0 <=? left_index)
       then l ← cell self column_index left_index;
            Ok (left_letters ++ [l])
       else Ok left_letters);
    Ok (left_letters, right_letters).

(** [diagonals.add(letters); diagonals.add(letters[::-1])] under
    [if letters:]. *)
Definition add_both (letters : str) (diagonals : gset str) : gset str :=
  if str_bool letters
  then {[reversed letters]} ∪ ({[letters]} ∪ diagonals)
  else diagonals.

Definition diagonal_lines (self : t) : result (gset str) :=
  st ← for_ (range 0 (length self))
    (λ '(diagonals, offset) _,
       '(left_letters, right_letters) ←
         for_ (range 0 (depth self)) (diagonal_step self offset) ([], []);
       let offset := offset + 1 in
       let right_letters := join right_letters in
       let diagonals := add_both right_letters diagonals in
       let left_letters := join left_letters in
       let diagonals := add_both left_letters diagonals in
       Ok (diagonals, offset))
    (∅, 0);
  Ok st.1.

Section Lines.
(** The order in which [*self.diagonal_lines] unpacks the set. *)
Variable set_iter : gset str → list str.

Definition lines (self : t) : result (list str) :=
  vertical ← vertical_lines self;
  let horizontal := horizontal_lines self in
  diagonal ← diagonal_lines self;
  Ok (vertical ++ horizontal ++ set_iter diagonal).
End Lines.

End Grid.

(** ** class Finder *)

Module Finder.

Section Search.
Variable set_iter : gset str → list str.

(** The loop [for word in words: if word in all_possible_lines: ...]. *)
Fixpoint search (all_possible_lines : str) (words : gen str)
    (exist_words : list str) : result (list str) :=
  match words with
  | Stop => Ok exist_words
  | Throw e => Raise e
  | Yield word rest =>
      if str_in word all_possible_lines
      then search all_possible_lines rest (exist_words ++ [word])
      else search all_possible_lines rest exist_words
  end.

(** The body of [find_words] after [words = read_words(file_path)]. *)
Definition find_words_in (grid : Grid.t) (words : gen str)
    : result (list str) :=
  let words := filter_by_length words (Grid.max_size grid) in
  let words := filter_by_letters words (Grid.letters grid) in
  if Grid.max_size grid <? 1 then Ok []
  else
    lines ← Grid.lines set_iter grid;
    let all_possible_lines := str_join "|" lines in
    search all_possible_lines words [].

Definition find_words (fs : str → Path) (grid : Grid.t)
    (file_path : str) : result (list str) :=
  find_words_in grid (read_words fs file_path).
End Search.

End Finder.

(** ** The shape invariant and the reference reading of the diagonals *)

(** The grid has exactly [depth] rows and every row has exactly [length]
    cells. *)
Definition rectangular (g : Grid.t) : Prop :=
  Z.of_nat (length (Grid.grid g)) = Grid.depth g ∧
  Forall (λ row, Z.of_nat (length row) = Grid.length g) (Grid.grid g).

#[global] Instance rectangular_dec g : Decision (rectangular g).
Proof. unfold rectangular. apply _. Defined.

(** The cell in row [i], column [j] of the matrix, as a total function
    (the NUL character outside the matrix). *)
Definition at_ (g : Grid.t) (i j : Z) : ascii :=
  default zero (row ← Grid.grid g !! Z.to_nat i; row !! Z.to_nat j).

Module Spec.

(** The diagonal algorithm as the specification words it: for every
    [offset] from [0] to [width - 1], walk [column_index] from [0] to
    [depth - 1]; at [column_index = 0] both accumulators are seeded with
    [grid[0][offset]]; further down, the right accumulator takes
    [grid[i][i + offset]] when [i + offset < width] and the left one takes
    [grid[i][i + offset - 2]] when [0 <= i + offset - 2 < width]. *)
Definition right_cells (g : Grid.t) (offset i : Z) : list ascii :=
  if decide (i = 0) then [at_ g 0 offset]
  else if decide (i + offset < Grid.length g) then [at_ g i (i + offset)]
  else [].

Definition left_cells (g : Grid.t) (offset i : Z) : list ascii :=
  if decide (i = 0) then [at_ g 0 offset]
  else if decide (0 ≤ i + offset - 2 < Grid.length g)
       then [at_ g i (i + offset - 2)]
  else [].

Definition right_accumulator (g : Grid.t) (offset : Z) : str :=
  join (range 0 (Grid.depth g) ≫= right_cells g offset).

Definition left_accumulator (g : Grid.t) (offset : Z) : str :=
  join (range 0 (Grid.depth g) ≫= left_cells g offset).

(** A non-empty accumulator contributes itself and its reverse. *)
Definition both_ways (s : str) : gset str :=
  if decide (s = "") then ∅ else {[s; reversed s]}.

Definition diagonal_lines (g : Grid.t) : gset str :=
  ⋃ ((λ offset, both_ways (right_accumulator g offset) ∪
                both_ways (left_accumulator g offset))
     <$> range 0 (Grid.length g)).

End Spec.

(** Closed forms of the two list views: column [c] read top to bottom, and
    each column, respectively each row, followed by its reverse. *)
Definition column (g : Grid.t) (c : Z) : str :=
  join ((λ r, at_ g r c) <$> range 0 (Grid.depth g)).

Definition columns_both_ways (g : Grid.t) : list str :=
  range 0 (Grid.length g) ≫= λ c, [column g c; reversed (column g c)].

Definition rows_both_ways (g : Grid.t) : list str :=
  Grid.grid g ≫= λ row, [join row; reversed (join row)].

(** [w] occurs in [s] as a contiguous substring. *)
Definition substring (w s : str) : Prop := ∃ a b, s = a +:+ w +:+ b.

(** What one offset adds to the set of diagonals. *)
Definition offset_lines (g : Grid.t) (offset : Z) : gset string :=
  Spec.both_ways (Spec.right_accumulator g offset) ∪
  Spec.both_ways (Spec.left_accumulator g offset).

(** A string made of cells of the grid, no longer than the larger side. *)
Definition fits (g : Grid.t) (s : string) : Prop :=
  len s ≤ Grid.max_size g ∧
  ∀ c, c ∈ list_ascii_of_string s → c ∈ Grid.letters g.

(** [word[0] in letters], for a non-empty word. *)
Definition first_in (letters : gset ascii) (word : string) : bool :=
  match word with
  | EmptyString => false
  | String c _ => bool_decide (c ∈ letters)
  end.

(** Shape of a literal grid. *)
Ltac rect := split; [reflexivity | repeat constructor].

(** ** Sample inputs *)

(** [Grid([["a", "b"], ["c", "d"]], 2, 2)] *)
Definition grid_abcd : Grid.t :=
  {| Grid.grid := [["a"; "b"]; ["c"; "d"]]%char;
     Grid.length := 2; Grid.depth := 2 |}.

(** [Grid([["c", "a", "t"]], 3, 1)] *)
Definition grid_cat : Grid.t :=
  {| Grid.grid := [["c"; "a"; "t"]]%char;
     Grid.length := 3; Grid.depth := 1 |}.

(** [Grid([["a", "b"]], 2, 1)] *)
Definition grid_ab : Grid.t :=
  {| Grid.grid := [["a"; "b"]]%char; Grid.length := 2; Grid.depth := 1 |}.

(** [Grid([], 0, 0)] *)
Definition grid_empty : Grid.t :=
  {| Grid.grid := []; Grid.length := 0; Grid.depth := 0 |}.

(** [Grid([["a", "b"], ["c"]], 2, 2)], a row too short. *)
Definition grid_ragged : Grid.t :=
  {| Grid.grid := [["a"; "b"]; ["c"]]%char;
     Grid.length := 2; Grid.depth := 2 |}.

(** A path that does not exist. *)
Definition no_such_file : Path :=
  {| exists_ := Ok false; is_file := Ok false;
     readlines := Raise FileNotFoundError |}.

(** A directory. *)
Definition directory : Path :=
  {| exists_ := Ok true; is_file := Ok false; readlines := Raise OSError |}.

(** A plain file that may not be read. *)
Definition locked_file : Path :=
  {| exists_ := Ok true; is_file := Ok true;
     readlines := Raise PermissionError |}.

(** A path that the checks cannot examine, its name being too long. *)
Definition unexaminable : Path :=
  {| exists_ := Raise OSError; is_file := Raise OSError;
     readlines := Raise OSError |}.

(** A readable plain file with the given lines. *)
Definition plain_file (lines : list str) : Path :=
  {| exists_ := Ok true; is_file := Ok true; readlines := Ok lines |}.

(** The path names an existing plain file that can be read. *)
Definition readable_plain_file (p : Path) : Prop :=
  exists_ p = Ok true ∧ is_file p = Ok true ∧
  ∃ lines, readlines p = Ok lines.

(** A file system that holds one plain file, ["words.txt"]. *)
Definition one_file (lines : list str) : str → Path :=
  λ path, if decide (path = "words.txt") then plain_file lines
          else no_such_file.

Definition newline : str := String (ascii_of_nat 10) "".

(** * Further parts of the program *)

(** ** What a generator yields and how it ends *)

(** The items yielded before the generator stops or raises. *)
Fixpoint gen_items {A : Type} (g : gen A) : list A :=
  match g with
  | Stop => []
  | Throw _ => []
  | Yield a rest => a :: gen_items rest
  end.

(** The exception that ends the generator, if it does not simply stop. *)
Fixpoint gen_end {A : Type} (g : gen A) : option exn :=
  match g with
  | Stop => None
  | Throw e => Some e
  | Yield _ rest => gen_end rest
  end.

(** ** A Grid instance with its private attributes

    [_letters] and [_lines] are the caches of the two memoised properties,
    [_number] is the cursor of the iterator protocol. *)

Module GridObj.

Record t : Type := {
  public : Grid.t;
  _letters : option (gset ascii);
  _lines : option (list str);
  _number : Z
}.

Definition __init__ (grid : GRID_TYPE) (length depth : Z) : t :=
  {| public := {| Grid.grid := grid; Grid.length := length;
                  Grid.depth := depth |};
     _letters := None; _lines := None; _number := 0 |}.

Definition set_letters (v : option (gset ascii)) (self : t) : t :=
  {| public := public self; _letters := v; _lines := _lines self;
     _number := _number self |}.

Definition set_lines (v : option (list str)) (self : t) : t :=
  {| public := public self; _letters := _letters self; _lines := v;
     _number := _number self |}.

Definition set_number (v : Z) (self : t) : t :=
  {| public := public self; _letters := _letters self;
     _lines := _lines self; _number := v |}.

(** [self[item]] *)
Definition __getitem__ (self : t) (item : Z) : result (list ascii) :=
  getitem (Grid.grid (public self)) item.

(** [len(self)] *)
Definition __len__ (self : t) : Z :=
  Z.of_nat (length (Grid.grid (public self))).

(** [iter(self)] is the object itself. *)
Definition __iter__ (self : t) : t := self.

(** What a call of [__next__] gives: a row, [StopIteration], or an
    exception of the subscript. *)
Inductive step : Type :=
  | Item (row : list ascii)
  | StopIteration
  | Failed (e : exn).

Definition __next__ (self : t) : step * t :=
  if Z.of_nat (length (Grid.grid (public self))) <=? _number self then
    (StopIteration, set_number 0 self)
  else
    match getitem (Grid.grid (public self)) (_number self) with
    | Raise e => (Failed e, self)
    | Ok result => (Item result, set_number (_number self + 1) self)
    end.

(** [for row in self: rows.append(row)], with a bound on the number of
    calls of [__next__]; [None] when the bound is reached. *)
Fixpoint collect (fuel : nat) (self : t)
    : option (result (list (list ascii)) * t) :=
  match fuel with
  | O => None
  | S fuel' =>
      match __next__ (__iter__ self) with
      | (StopIteration, self') => Some (Ok [], self')
      | (Failed e, self') => Some (Raise e, self')
      | (Item row, self') =>
          match collect fuel' self' with
          | Some (Ok rows, self'') => Some (Ok (row :: rows), self'')
          | other => other
          end
      end
  end.

(** The memoised property [letters]: [if not self._letters: ...]. *)
Definition letters (self : t) : gset ascii * t :=
  let fresh :=
    let v := Grid.letters (public self) in (v, set_letters (Some v) self) in
  match _letters self with
  | None => fresh
  | Some cached => if decide (cached = ∅) then fresh else (cached, self)
  end.

Section Lines.
Variable set_iter : gset str → list str.

(** The memoised property [lines]: [if not self._lines: ...]. An exception
    of the views leaves the cache as it was. *)
Definition lines (self : t) : result (list str * t) :=
  let fresh :=
    v ← Grid.lines set_iter (public self);
    Ok (v, set_lines (Some v) self) in
  match _lines self with
  | None => fresh
  | Some cached => if decide (cached = []) then fresh else Ok (cached, self)
  end.
End Lines.

End GridObj.


(** ** class GridMaker *)

Definition ascii_lowercase : str := "abcdefghijklmnopqrstuvwxyz".

(** [random.choice(seq)]: the item at the index drawn below [len(seq)];
    [draws k] is the [k]-th number the random source gives. An empty
    sequence raises [IndexError]. *)
Definition choice (draws : nat → nat) (k : nat) (seq : str)
    : result ascii :=
  str_getitem seq (Z.of_nat (draws k) `mod` len seq).

Module GridMaker.

Record t : Type := {
  length : Z;
  depth : Z
}.

Definition _random_row (self : t) (draws : nat → nat) (k : nat)
    : result (list ascii * nat) :=
  for_ (range 0 (length self))
    (λ '(row, k) _,
       c ← choice draws k ascii_lowercase;
       Ok (row ++ [c], S k))
    ([], k).

Definition generate (self : t) (draws : nat → nat) (k : nat)
    : result (Grid.t * nat) :=
  '(result, k) ←
    for_ (range 0 (depth self))
      (λ '(result, k) _,
         '(row, k) ← _random_row self draws k;
         Ok (result ++ [row], k))
      ([], k);
  g ← Grid.__init__ result (length self) (depth self);
  Ok (g, k).

End GridMaker.

(** The down-right diagonal that starts in the top row at column
    [offset]. *)
Definition down_right (g : Grid.t) (offset : Z) : str :=
  join ((λ i, at_ g i (i + offset))
          <$> range 0 (Z.min (Grid.depth g) (Grid.length g - offset))).

(** Every cell of the declared [depth] x [length] block exists. *)
Definition block_present (g : Grid.t) : Prop :=
  ∀ r c, 0 ≤ r < Grid.depth g → 0 ≤ c < Grid.length g →
         is_Some (Grid.grid g !! Z.to_nat r ≫= (.!! Z.to_nat c)).

(** [c.isspace()] holds for every character of [s]. *)
Definition all_space (s : str) : Prop :=
  Forall (λ c, isspace c = true) (list_ascii_of_string s).

(** The first character of [s], if any, is no white space. *)
Definition starts_clean (s : string) : Prop :=
  match s with
  | EmptyString => True
  | String c _ => isspace c = false
  end.

(** [Grid([["a", "b"], ["c", "d"]], 2, 2)], as a new object. *)
Definition obj_abcd : GridObj.t :=
  GridObj.__init__ [["a"; "b"]; ["c"; "d"]]%char 2 2.

(** The lines of [grid_abcd], with the diagonals in the order of
    [elements]. *)
Definition lines_abcd : list str :=
  Eval vm_compute in
    match Grid.lines elements grid_abcd with
    | Ok ls => ls
    | Raise _ => []
    end.

(** The letter that [random.choice(ascii_lowercase)] picks for the
    draw [d]. *)
Definition lowercase_at (d : nat) : ascii :=
  default zero (list_ascii_of_string ascii_lowercase !! (d mod 26)%nat).

(** The row of [n] letters picked by the draws [k], [k+1], ... *)
Definition row_of (draws : nat → nat) (k n : nat) : list ascii :=
  (λ j, lowercase_at (draws (k + j)%nat)) <$> seq 0 n.

(** * Properties *)

(** ** Strings *)

Section Strings.
Implicit Types (s w a b : string) (l : list ascii).

Lemma append_nil s : "" +:+ s = s.
Proof. reflexivity. Qed.

Lemma append_cons c a b : String c a +:+ b = String c (a +:+ b).
Proof. reflexivity. Qed.

Lemma chars_join l : list_ascii_of_string (join l) = l.
Proof. apply list_ascii_of_string_of_list_ascii. Qed.

Lemma join_chars s : join (list_ascii_of_string s) = s.
Proof. apply string_of_list_ascii_of_string. Qed.

Lemma length_chars s : length (list_ascii_of_string s) = String.length s.
Proof. induction s; simpl; congruence. Qed.

Lemma len_join l : len (join l) = Z.of_nat (length l).
Proof. unfold len. by rewrite <- length_chars, chars_join. Qed.

Lemma chars_reversed s :
  list_ascii_of_string (reversed s) = rev (list_ascii_of_string s).
Proof. apply chars_join. Qed.

Lemma len_reversed s : len (reversed s) = len s.
Proof.
  unfold len. by rewrite <- !length_chars, chars_reversed, length_rev.
Qed.

Lemma reversed_involutive s : reversed (reversed s) = s.
Proof.
  unfold reversed at 1. by rewrite chars_reversed, rev_involutive, join_chars.
Qed.

Lemma chars_app a b :
  list_ascii_of_string (a +:+ b) =
  list_ascii_of_string a ++ list_ascii_of_string b.
Proof.
  induction a as [|c a IH]; [done|].
  rewrite append_cons. simpl. by rewrite IH.
Qed.

Lemma str_bool_join l : str_bool (join l) = true ↔ l ≠ [].
Proof. destruct l; split; intros; cbn in *; done. Qed.

Lemma str_bool_false s : str_bool s = false ↔ s = "".
Proof. destruct s; simpl; split; congruence. Qed.

(** *** Substring search *)

Lemma startswith_nil_r w : startswith w "" = true → w = "".
Proof. by destruct w. Qed.

Lemma startswith_app w a b :
  startswith w a = true → startswith w (a +:+ b) = true.
Proof.
  revert a. induction w as [|c w IH]; intros [|x a]; try done.
  rewrite append_cons. simpl.
  rewrite !andb_true_iff. intros [? ?]. auto.
Qed.

Lemma startswith_self w b : startswith w (w +:+ b) = true.
Proof.
  induction w as [|c w IH]; [done|].
  rewrite append_cons. simpl.
  by rewrite bool_decide_eq_true_2.
Qed.

Lemma startswith_split w s :
  startswith w s = true → ∃ b, s = w +:+ b.
Proof.
  revert s. induction w as [|c w IH]; intros s; simpl.
  - by exists s.
  - destruct s as [|x s]; [done|].
    rewrite andb_true_iff, bool_decide_eq_true.
    intros [-> [b ->]%IH]. by exists b.
Qed.

Lemma str_in_nil_r w : str_in w "" = true → w = "".
Proof. simpl. rewrite orb_false_r. apply startswith_nil_r. Qed.

Lemma str_in_cons w x s :
  str_in w (String x s) = startswith w (String x s) || str_in w s.
Proof. reflexivity. Qed.

Lemma startswith_str_in w s : startswith w s = true → str_in w s = true.
Proof. intros H. destruct s; simpl; by rewrite H. Qed.

Lemma str_in_app_l w a b : str_in w a = true → str_in w (a +:+ b) = true.
Proof.
  induction a as [|x a IH].
  - intros ->%str_in_nil_r. by destruct b.
  - rewrite append_cons, !str_in_cons, !orb_true_iff.
    intros [H|H]; [left|right; auto].
    by apply (startswith_app w (String x a) b).
Qed.

Lemma str_in_app_r w a b : str_in w b = true → str_in w (a +:+ b) = true.
Proof.
  intros H. induction a as [|x a IH]; [done|].
  rewrite append_cons, str_in_cons, IH. apply orb_true_r.
Qed.

Lemma str_in_substring w s : str_in w s = true ↔ substring w s.
Proof.
  split.
  - induction s as [|x s IH].
    + intros ->%str_in_nil_r. by exists "", "".
    + rewrite str_in_cons, orb_true_iff.
      intros [[b ->]%startswith_split|H].
      * by exists "", b.
      * destruct (IH H) as (a & b & ->). by exists (String x a), b.
  - intros (a & b & ->).
    apply str_in_app_r, startswith_str_in, startswith_self.
Qed.

Lemma str_in_chars w s :
  str_in w s = true →
  ∃ l1 l2, list_ascii_of_string s = l1 ++ list_ascii_of_string w ++ l2.
Proof.
  intros (a & b & ->)%str_in_substring.
  exists (list_ascii_of_string a), (list_ascii_of_string b).
  by rewrite !chars_app.
Qed.

Lemma str_in_len w s : str_in w s = true → len w ≤ len s.
Proof.
  intros (l1 & l2 & H)%str_in_chars. unfold len.
  rewrite <- !length_chars, H, !length_app. lia.
Qed.

Lemma str_in_first c w s :
  str_in (String c w) s = true → c ∈ list_ascii_of_string s.
Proof.
  intros (l1 & l2 & ->)%str_in_chars. simpl. set_solver.
Qed.

(** *** Joining with a one-character separator *)

Lemma no_sep_tail sep c w :
  str_in (String sep "") (String c w) = false →
  sep ≠ c ∧ str_in (String sep "") w = false.
Proof.
  rewrite str_in_cons. simpl.
  rewrite orb_false_iff, andb_true_r, bool_decide_eq_false.
  tauto.
Qed.

Lemma startswith_before_sep sep w a b :
  str_in (String sep "") w = false →
  startswith w (a +:+ String sep b) = true →
  startswith w a = true.
Proof.
  revert a. induction w as [|c w IH]; intros a Hsep; [done|].
  apply no_sep_tail in Hsep as [Hne Hsep].
  destruct a as [|x a]; rewrite ?append_nil, ?append_cons; simpl;
    rewrite andb_true_iff, bool_decide_eq_true.
  - by intros [-> _].
  - intros [-> H]. rewrite bool_decide_eq_true_2 by done. simpl. eauto.
Qed.

Lemma str_in_across_sep sep w a b :
  str_in (String sep "") w = false →
  str_in w (a +:+ String sep b) = true →
  str_in w a = true ∨ str_in w b = true.
Proof.
  intros Hsep. induction a as [|x a IH].
  - rewrite append_nil, str_in_cons, orb_true_iff.
    intros [H|H]; [left|by right].
    simpl. rewrite orb_false_r.
    by apply (startswith_before_sep sep w "" b).
  - rewrite append_cons, !str_in_cons, !orb_true_iff. intros [H|H].
    + left; left. by apply (startswith_before_sep sep w (String x a) b).
    + destruct (IH H); auto.
Qed.

Lemma str_join_cons sep p ps :
  ps ≠ [] → str_join sep (p :: ps) = p +:+ sep +:+ str_join sep ps.
Proof. by destruct ps. Qed.

Lemma str_in_str_join sep w p ps :
  p ∈ ps → str_in w p = true → str_in w (str_join sep ps) = true.
Proof.
  intros Hp Hw. induction ps as [|q ps IH]; [by apply elem_of_nil in Hp|].
  destruct (decide (ps = [])) as [->|Hne].
  - apply list_elem_of_singleton in Hp as ->. done.
  - rewrite str_join_cons by done.
    apply elem_of_cons in Hp as [->|Hp].
    + by apply str_in_app_l.
    + by apply str_in_app_r, str_in_app_r, IH.
Qed.

Lemma str_in_str_join_inv sep w ps :
  w ≠ "" →
  str_in (String sep "") w = false →
  str_in w (str_join (String sep "") ps) = true →
  ∃ p, p ∈ ps ∧ str_in w p = true.
Proof.
  intros Hw Hsep. induction ps as [|q ps IH].
  - by intros ?%str_in_nil_r.
  - destruct (decide (ps = [])) as [->|Hne].
    + simpl. intros H. exists q. split; [apply list_elem_of_here|done].
    + rewrite str_join_cons, append_cons, append_nil by done.
      intros [H|H]%str_in_across_sep; [| |done].
      * exists q. split; [apply list_elem_of_here|done].
      * destruct (IH H) as (p & ? & ?).
        exists p. split; [by apply list_elem_of_further|done].
Qed.

End Strings.

(** ** Loops and subscripts *)

Section Loops.
Context {A S : Type}.
Implicit Types (xs : list A) (s : S).

(** A loop whose body never raises on the items it meets is a fold. *)
Lemma for_foldl xs (body : S → A → result S) (step : S → A → S) s :
  (∀ s x, x ∈ xs → body s x = Ok (step s x)) →
  for_ xs body s = Ok (foldl step s xs).
Proof.
  revert s. induction xs as [|x xs IH]; intros s Hbody; [done|].
  simpl. rewrite Hbody by apply list_elem_of_here. simpl.
  apply IH. intros s' y Hy. by apply Hbody, list_elem_of_further.
Qed.

Lemma foldl_snoc2 {B : Type} (f h : A → B) xs (acc : list B) :
  foldl (λ acc x, (acc ++ [f x]) ++ [h x]) acc xs =
  acc ++ (xs ≫= λ x, [f x; h x]).
Proof.
  revert acc. induction xs as [|x xs IH]; intros acc; simpl.
  - by rewrite app_nil_r.
  - rewrite IH, <- !app_assoc. done.
Qed.
End Loops.

Lemma mapM_Ok {A B : Type} (f : A → result B) (h : A → B) (l : list A) :
  (∀ x, x ∈ l → f x = Ok (h x)) → mapM f l = Ok (h <$> l).
Proof.
  induction l as [|x l IH]; intros Hf; [done|].
  simpl. rewrite Hf by apply list_elem_of_here. simpl.
  rewrite IH; [done|]. intros y Hy. by apply Hf, list_elem_of_further.
Qed.

Lemma getitem_Ok {A : Type} (l : list A) (i : Z) (x : A) :
  0 ≤ i → l !! Z.to_nat i = Some x → getitem l i = Ok x.
Proof.
  intros Hi Hx. unfold getitem.
  apply lookup_lt_Some in Hx as Hlt.
  rewrite (proj2 (Z.ltb_ge i 0)) by done.
  rewrite (proj2 (Z.leb_le 0 i)) by done.
  rewrite (proj2 (Z.ltb_lt i _)) by lia.
  simpl. by rewrite Hx.
Qed.

Lemma elem_of_range (k a b : Z) : k ∈ range a b ↔ a ≤ k < b.
Proof. unfold range. rewrite elem_of_seqZ. lia. Qed.

Lemma length_range (a b : Z) : length (range a b) = Z.to_nat (b - a).
Proof. apply length_seqZ. Qed.

(** ** Cells of a rectangular grid *)

Section Rectangular.
Variable g : Grid.t.
Hypothesis Hrect : rectangular g.

Lemma rectangular_row (i : Z) :
  0 ≤ i < Grid.depth g →
  ∃ row, Grid.grid g !! Z.to_nat i = Some row ∧
         Z.of_nat (length row) = Grid.length g.
Proof.
  destruct Hrect as [Hdepth Hrows]. intros Hi.
  destruct (lookup_lt_is_Some_2 (Grid.grid g) (Z.to_nat i)) as [row Hrow];
    [lia|].
  exists row. split; [done|].
  by apply (Forall_lookup_1 _ _ _ _ Hrows Hrow).
Qed.

(** Inside the declared bounds the subscript [self.grid[i][j]] succeeds
    and reads the cell of the matrix. *)
Lemma cell_Ok (i j : Z) :
  0 ≤ i < Grid.depth g → 0 ≤ j < Grid.length g →
  Grid.cell g i j = Ok (at_ g i j).
Proof.
  intros Hi Hj. destruct (rectangular_row i Hi) as (row & Hrow & Hlen).
  destruct (lookup_lt_is_Some_2 row (Z.to_nat j)) as [c Hc]; [lia|].
  unfold Grid.cell, at_.
  rewrite (getitem_Ok _ _ row) by (done || lia). simpl.
  rewrite (getitem_Ok _ _ c) by (done || lia).
  by rewrite Hrow; simpl; rewrite Hc.
Qed.

Lemma at_elem_of_letters (i j : Z) :
  0 ≤ i < Grid.depth g → 0 ≤ j < Grid.length g →
  at_ g i j ∈ Grid.letters g.
Proof.
  intros Hi Hj. destruct (rectangular_row i Hi) as (row & Hrow & Hlen).
  destruct (lookup_lt_is_Some_2 row (Z.to_nat j)) as [c Hc]; [lia|].
  unfold at_, Grid.letters. rewrite Hrow; simpl; rewrite Hc; simpl.
  apply elem_of_list_to_set, list_elem_of_In, in_concat.
  exists row. split; apply list_elem_of_In; by eapply list_elem_of_lookup_2.
Qed.

(** *** The list views *)

Lemma column_Ok (c : Z) :
  0 ≤ c < Grid.length g →
  mapM (λ row_index, Grid.cell g row_index c) (range 0 (Grid.depth g))
  = Ok ((λ r, at_ g r c) <$> range 0 (Grid.depth g)).
Proof.
  intros Hc. apply mapM_Ok. intros r Hr%elem_of_range.
  apply cell_Ok; lia.
Qed.

Lemma vertical_lines_closed :
  Grid.vertical_lines g = Ok (columns_both_ways g).
Proof.
  unfold Grid.vertical_lines, columns_both_ways.
  rewrite (for_foldl _ _
             (λ columns c, (columns ++ [column g c])
                           ++ [reversed (column g c)])).
  - by rewrite foldl_snoc2.
  - intros columns c Hc%elem_of_range.
    by rewrite column_Ok by lia.
Qed.

End Rectangular.

Lemma horizontal_lines_closed (g : Grid.t) :
  Grid.horizontal_lines g = rows_both_ways g.
Proof. unfold Grid.horizontal_lines. by rewrite foldl_snoc2. Qed.

(** ** The diagonal walk *)

Lemma add_both_both_ways (s : string) (D : gset string) :
  Grid.add_both s D = Spec.both_ways s ∪ D.
Proof.
  unfold Grid.add_both, Spec.both_ways.
  destruct (decide (s = "")) as [->|Hne].
  - simpl. by rewrite union_empty_l_L.
  - destruct s; [done|]. simpl. set_solver.
Qed.

Section Diagonal.
Variable g : Grid.t.
Hypothesis Hrect : rectangular g.

Lemma diagonal_step_Ok (offset i : Z) (L R : list ascii) :
  0 ≤ offset < Grid.length g → 0 ≤ i < Grid.depth g →
  Grid.diagonal_step g offset (L, R) i
  = Ok (L ++ Spec.left_cells g offset i, R ++ Spec.right_cells g offset i).
Proof.
  intros Ho Hi. unfold Grid.diagonal_step, Spec.left_cells, Spec.right_cells.
  destruct (decide (i = 0)) as [->|Hne].
  - cbn [Z.eqb]. rewrite Z.add_0_l, (cell_Ok g Hrect 0 offset) by lia.
    done.
  - rewrite (proj2 (Z.eqb_neq i 0)) by done.
    repeat case_decide;
      destruct (Z.ltb_spec (i + offset) (Grid.length g)); try lia;
      destruct (Z.ltb_spec (i + offset - 2) (Grid.length g)); try lia;
      destruct (Z.leb_spec 0 (i + offset - 2)); try lia;
      cbn [andb mbind result_bind];
      rewrite ?(cell_Ok g Hrect) by lia;
      cbn [mbind result_bind];
      by rewrite ?app_nil_r.
Qed.

Lemma foldl_cells (offset : Z) (idx : list Z) (L R : list ascii) :
  foldl (λ acc i, (acc.1 ++ Spec.left_cells g offset i,
                   acc.2 ++ Spec.right_cells g offset i)) (L, R) idx
  = (L ++ (idx ≫= Spec.left_cells g offset),
     R ++ (idx ≫= Spec.right_cells g offset)).
Proof.
  revert L R. induction idx as [|i idx IH]; intros L R; simpl.
  - by rewrite !app_nil_r.
  - by rewrite IH, <- !app_assoc.
Qed.

(** The inner loop leaves the two accumulators of the specification. *)
Lemma diagonal_walk_Ok (offset : Z) :
  0 ≤ offset < Grid.length g →
  for_ (range 0 (Grid.depth g)) (Grid.diagonal_step g offset) ([], [])
  = Ok (range 0 (Grid.depth g) ≫= Spec.left_cells g offset,
        range 0 (Grid.depth g) ≫= Spec.right_cells g offset).
Proof.
  intros Ho.
  rewrite (for_foldl _ _
             (λ acc i, (acc.1 ++ Spec.left_cells g offset i,
                        acc.2 ++ Spec.right_cells g offset i))).
  - by rewrite foldl_cells.
  - intros [L R] i Hi%elem_of_range. apply diagonal_step_Ok; lia.
Qed.

Lemma diagonal_offsets_Ok {X : Type} (xs : list X) (D : gset string)
    (o : Z) :
  0 ≤ o →
  (∀ k, o ≤ k < o + Z.of_nat (length xs) → k < Grid.length g) →
  for_ xs
    (λ '(diagonals, offset) _,
       '(left_letters, right_letters) ←
         for_ (range 0 (Grid.depth g)) (Grid.diagonal_step g offset)
              ([], []);
       let offset := offset + 1 in
       let right_letters := join right_letters in
       let diagonals := Grid.add_both right_letters diagonals in
       let left_letters := join left_letters in
       let diagonals := Grid.add_both left_letters diagonals in
       Ok (diagonals, offset))
    (D, o)
  = Ok (D ∪ ⋃ (offset_lines g <$> seqZ o (Z.of_nat (length xs))),
        o + Z.of_nat (length xs)).
Proof.
  revert D o. induction xs as [|x xs IH]; intros D o Ho Hlen.
  - simpl. rewrite Z.add_0_r. do 2 f_equal. set_solver.
  - assert (o < Grid.length g) by (apply Hlen; simpl; lia).
    cbn [for_]. rewrite diagonal_walk_Ok by lia.
    cbn [mbind result_bind].
    rewrite IH by (try lia; intros k Hk; apply Hlen; simpl; lia).
    rewrite !add_both_both_ways.
    rewrite (seqZ_cons o (Z.of_nat (length (x :: xs))))
      by (simpl; lia).
    replace (Z.pred (Z.of_nat (length (x :: xs))))
      with (Z.of_nat (length xs)) by (simpl; lia).
    replace (Z.succ o) with (o + 1) by lia.
    f_equal. f_equal.
    + rewrite fmap_cons, union_list_cons. unfold offset_lines at 2.
      fold (Spec.right_accumulator g o) (Spec.left_accumulator g o).
      set_solver.
    + simpl. lia.
Qed.

Lemma diagonal_lines_spec :
  Grid.diagonal_lines g = Ok (Spec.diagonal_lines g).
Proof.
  unfold Grid.diagonal_lines.
  rewrite diagonal_offsets_Ok; [|lia|rewrite length_range; lia].
  simpl. f_equal. rewrite union_empty_l_L.
  unfold Spec.diagonal_lines, range. rewrite length_seqZ.
  destruct (decide (0 ≤ Grid.length g)).
  - by rewrite Z2Nat.id, Z.sub_0_r by lia.
  - by rewrite !seqZ_nil by lia.
Qed.

End Diagonal.

(** ** What the lines of a rectangular grid are made of *)

Lemma length_bind_le {A B : Type} (f : A → list B) (l : list A) :
  (∀ x, length (f x) ≤ 1)%nat → (length (l ≫= f) ≤ length l)%nat.
Proof.
  intros Hf. induction l as [|x l IH]; [done|].
  rewrite bind_cons, length_app. specialize (Hf x). simpl. lia.
Qed.

Lemma fits_reversed g s : fits g s → fits g (reversed s).
Proof.
  intros [Hlen Hin]. split; [by rewrite len_reversed|].
  intros c. rewrite chars_reversed, list_elem_of_In, <- in_rev.
  rewrite <- list_elem_of_In. apply Hin.
Qed.

Section Lines.
Variable g : Grid.t.
Hypothesis Hrect : rectangular g.

Lemma depth_nonneg : 0 ≤ Grid.depth g.
Proof. destruct Hrect as [<- _]. lia. Qed.

Lemma fits_row row : row ∈ Grid.grid g → fits g (join row).
Proof.
  intros Hrow. split.
  - rewrite len_join. destruct Hrect as [_ Hrows].
    rewrite Forall_forall in Hrows. rewrite (Hrows row Hrow).
    unfold Grid.max_size. lia.
  - intros c. rewrite chars_join. intros Hc.
    apply elem_of_list_to_set, list_elem_of_In, in_concat.
    exists row. by rewrite <- !list_elem_of_In.
Qed.

Lemma fits_column c : 0 ≤ c < Grid.length g → fits g (column g c).
Proof.
  intros Hc. pose proof depth_nonneg. unfold column. split.
  - rewrite len_join, length_fmap, length_range.
    unfold Grid.max_size. lia.
  - intros x. rewrite chars_join.
    intros (r & -> & Hr%elem_of_range)%list_elem_of_fmap.
    by apply at_elem_of_letters.
Qed.

Lemma fits_cells (cells : Z → Z → list ascii) offset :
  (∀ i, length (cells offset i) ≤ 1)%nat →
  (∀ i x, 0 ≤ i < Grid.depth g → x ∈ cells offset i →
          x ∈ Grid.letters g) →
  fits g (join (range 0 (Grid.depth g) ≫= cells offset)).
Proof.
  intros Hone Hin. pose proof depth_nonneg. split.
  - rewrite len_join.
    pose proof (length_bind_le (cells offset) (range 0 (Grid.depth g))
                  Hone) as Hle.
    rewrite length_range in Hle. unfold Grid.max_size. lia.
  - intros x. rewrite chars_join.
    intros (i & Hx & Hi%elem_of_range)%list_elem_of_bind.
    apply (Hin i); [lia|done].
Qed.

Lemma fits_right_accumulator offset :
  0 ≤ offset < Grid.length g → fits g (Spec.right_accumulator g offset).
Proof.
  intros Ho. apply (fits_cells (Spec.right_cells g)).
  - intros i. unfold Spec.right_cells. repeat case_decide; simpl; lia.
  - intros i x Hi. unfold Spec.right_cells.
    repeat case_decide; intros Hx; try by apply elem_of_nil in Hx.
    all: apply list_elem_of_singleton in Hx as ->.
    all: apply (at_elem_of_letters g Hrect); lia.
Qed.

Lemma fits_left_accumulator offset :
  0 ≤ offset < Grid.length g → fits g (Spec.left_accumulator g offset).
Proof.
  intros Ho. apply (fits_cells (Spec.left_cells g)).
  - intros i. unfold Spec.left_cells. repeat case_decide; simpl; lia.
  - intros i x Hi. unfold Spec.left_cells.
    repeat case_decide; intros Hx; try by apply elem_of_nil in Hx.
    all: apply list_elem_of_singleton in Hx as ->.
    all: apply (at_elem_of_letters g Hrect); lia.
Qed.

Lemma fits_both_ways s x : fits g s → x ∈ Spec.both_ways s → fits g x.
Proof.
  intros Hs. unfold Spec.both_ways.
  case_decide; [by intros ?%not_elem_of_empty|].
  intros [->%elem_of_singleton| ->%elem_of_singleton]%elem_of_union;
    [done | by apply fits_reversed].
Qed.

Lemma fits_horizontal s : s ∈ rows_both_ways g → fits g s.
Proof.
  intros (row & Hs & Hrow)%list_elem_of_bind.
  apply elem_of_cons in Hs as [->|Hs]; [by apply fits_row|].
  apply list_elem_of_singleton in Hs as ->.
  by apply fits_reversed, fits_row.
Qed.

Lemma fits_vertical s : s ∈ columns_both_ways g → fits g s.
Proof.
  intros (c & Hs & Hc%elem_of_range)%list_elem_of_bind.
  apply elem_of_cons in Hs as [->|Hs]; [by apply fits_column|].
  apply list_elem_of_singleton in Hs as ->.
  by apply fits_reversed, fits_column.
Qed.

Lemma fits_diagonal s : s ∈ Spec.diagonal_lines g → fits g s.
Proof.
  unfold Spec.diagonal_lines. rewrite elem_of_union_list.
  intros (X & (o & -> & Ho%elem_of_range)%list_elem_of_fmap & Hs).
  apply elem_of_union in Hs as [Hs|Hs].
  - by apply (fits_both_ways _ _ (fits_right_accumulator o Ho)).
  - by apply (fits_both_ways _ _ (fits_left_accumulator o Ho)).
Qed.

Section Order.
Variable set_iter : gset string → list string.
Hypothesis set_iter_perm : ∀ X, set_iter X ≡ₚ elements X.

Lemma elem_of_set_iter s X : s ∈ set_iter X ↔ s ∈ X.
Proof. by rewrite set_iter_perm, elem_of_elements. Qed.

Lemma lines_closed :
  Grid.lines set_iter g
  = Ok (columns_both_ways g ++ rows_both_ways g
        ++ set_iter (Spec.diagonal_lines g)).
Proof.
  unfold Grid.lines.
  rewrite (vertical_lines_closed g Hrect), (diagonal_lines_spec g Hrect).
  by rewrite horizontal_lines_closed.
Qed.

Lemma fits_lines s :
  s ∈ columns_both_ways g ++ rows_both_ways g
      ++ set_iter (Spec.diagonal_lines g) →
  fits g s.
Proof.
  rewrite !elem_of_app, elem_of_set_iter.
  intros [?|[?|?]];
    auto using fits_vertical, fits_horizontal, fits_diagonal.
Qed.
End Order.

End Lines.

(** ** The filter pipeline on a source that yields a list of words *)

Lemma str_getitem_0_empty : str_getitem "" 0 = Raise IndexError.
Proof. reflexivity. Qed.

Lemma str_getitem_0_cons c w : str_getitem (String c w) 0 = Ok c.
Proof. unfold str_getitem. by apply getitem_Ok. Qed.

Section Pipeline.
Variables (set_iter : gset string → list string).
Variables (corpus : string) (letters : gset ascii) (m : Z).

Lemma search_pipeline (ws acc : list string) :
  (∀ w, w ∈ ws → w ≠ "") →
  Finder.search corpus
    (filter_by_letters (filter_by_length (gen_of_list ws) m) letters) acc
  = Ok (acc ++ List.filter
                 (λ w, (len w <=? m) && first_in letters w
                       && str_in w corpus) ws).
Proof.
  revert acc. induction ws as [|w ws IH]; intros acc Hne.
  - simpl. by rewrite app_nil_r.
  - assert (w ≠ "") as Hw by apply Hne, list_elem_of_here.
    assert (∀ w', w' ∈ ws → w' ≠ "") as Hne'
      by (intros w' ?; by apply Hne, list_elem_of_further).
    destruct w as [|c w]; [done|].
    cbn [gen_of_list filter_by_length List.filter first_in].
    destruct (len (String c w) <=? m); cbn [andb]; [|by apply IH].
    cbn [filter_by_letters]. rewrite str_getitem_0_cons.
    destruct (bool_decide (c ∈ letters)); cbn [andb]; [|by apply IH].
    cbn [Finder.search].
    destruct (str_in (String c w) corpus); [|by apply IH].
    rewrite IH by done. by rewrite <- app_assoc.
Qed.

(** An empty word stops the pipeline with [IndexError], whatever was
    matched before it. *)
Lemma search_empty_word (ws : list string) (rest : gen string)
    (acc : list string) :
  (∀ w, w ∈ ws → w ≠ "") → 0 ≤ m →
  Finder.search corpus
    (filter_by_letters
       (filter_by_length (gen_app ws (Yield "" rest)) m) letters) acc
  = Raise IndexError.
Proof.
  revert acc. induction ws as [|w ws IH]; intros acc Hne Hm.
  - cbn [gen_app filter_by_length]. change (len "") with 0.
    rewrite (proj2 (Z.leb_le 0 m)) by done.
    cbn [filter_by_letters]. by rewrite str_getitem_0_empty.
  - assert (w ≠ "") as Hw by apply Hne, list_elem_of_here.
    assert (∀ w', w' ∈ ws → w' ≠ "") as Hne'
      by (intros w' ?; by apply Hne, list_elem_of_further).
    destruct w as [|c w]; [done|].
    cbn [gen_app filter_by_length].
    destruct (len (String c w) <=? m); [|by apply IH].
    cbn [filter_by_letters]. rewrite str_getitem_0_cons.
    destruct (bool_decide (c ∈ letters)); [|by apply IH].
    cbn [Finder.search].
    destruct (str_in (String c w) corpus); by apply IH.
Qed.
End Pipeline.

(** ** Rows and columns come in pairs *)

Section Pairs.
Context {A B : Type} (f h : A → B).

Lemma length_pairs (l : list A) :
  length (l ≫= λ x, [f x; h x]) = (2 * length l)%nat.
Proof.
  induction l as [|x l IH]; [done|].
  rewrite bind_cons, length_app, IH. simpl. lia.
Qed.

Lemma lookup_pairs (l : list A) (i : nat) (x : A) :
  l !! i = Some x →
  (l ≫= λ x, [f x; h x]) !! (2 * i)%nat = Some (f x) ∧
  (l ≫= λ x, [f x; h x]) !! (2 * i + 1)%nat = Some (h x).
Proof.
  revert i. induction l as [|y l IH]; intros i Hx; [done|].
  rewrite bind_cons. destruct i as [|i].
  - by injection Hx as ->.
  - replace (2 * S i)%nat with (S (S (2 * i))) by lia.
    by apply IH.
Qed.
End Pairs.

Lemma both_ways_reversed (s x : string) :
  x ∈ Spec.both_ways s → reversed x ∈ Spec.both_ways s.
Proof.
  unfold Spec.both_ways. case_decide; [done|].
  rewrite !elem_of_union, !elem_of_singleton.
  intros [->| ->]; [by right|left; apply reversed_involutive].
Qed.

Lemma diagonal_spec_reversed (g : Grid.t) (s : string) :
  s ∈ Spec.diagonal_lines g → reversed s ∈ Spec.diagonal_lines g.
Proof.
  unfold Spec.diagonal_lines. rewrite !elem_of_union_list.
  intros (X & HX & Hs). exists X. split; [done|].
  apply list_elem_of_fmap in HX as (o & -> & _).
  apply elem_of_union in Hs as [Hs|Hs]; apply elem_of_union;
    [left|right]; by apply both_ways_reversed.
Qed.

(** ** The accumulators, seed first

    On a grid with at least one row the walk of an offset starts with the
    seed [grid[0][offset]] and goes on with the rows 1 to depth-1. *)

Lemma range_0_cons (d : Z) : 0 < d → range 0 d = 0 :: range 1 d.
Proof.
  intros Hd. unfold range. rewrite seqZ_cons by lia.
  f_equal. f_equal. lia.
Qed.

Lemma right_accumulator_seeded (g : Grid.t) (offset : Z) :
  0 < Grid.depth g →
  Spec.right_accumulator g offset
  = join (at_ g 0 offset ::
          (range 1 (Grid.depth g) ≫= λ i,
             if decide (i + offset < Grid.length g)
             then [at_ g i (i + offset)] else [])).
Proof.
  intros Hd. unfold Spec.right_accumulator.
  rewrite range_0_cons, bind_cons by done. f_equal.
  unfold Spec.right_cells at 1. rewrite decide_True by done. simpl. f_equal.
  apply Forall_bind_ext, Forall_forall. intros i Hi%elem_of_range.
  unfold Spec.right_cells. by rewrite decide_False by lia.
Qed.

Lemma left_accumulator_seeded (g : Grid.t) (offset : Z) :
  0 < Grid.depth g →
  Spec.left_accumulator g offset
  = join (at_ g 0 offset ::
          (range 1 (Grid.depth g) ≫= λ i,
             if decide (0 ≤ i + offset - 2 < Grid.length g)
             then [at_ g i (i + offset - 2)] else [])).
Proof.
  intros Hd. unfold Spec.left_accumulator.
  rewrite range_0_cons, bind_cons by done. f_equal.
  unfold Spec.left_cells at 1. rewrite decide_True by done. simpl. f_equal.
  apply Forall_bind_ext, Forall_forall. intros i Hi%elem_of_range.
  unfold Spec.left_cells. by rewrite decide_False by lia.
Qed.

(** ** The scenarios of the specification, and a ragged grid *)

Example scenario_A_letters :
  Grid.letters grid_abcd = list_to_set ["a"; "b"; "c"; "d"]%char.
Proof. reflexivity. Qed.

Example scenario_A_horizontal :
  Grid.horizontal_lines grid_abcd = ["ab"; "ba"; "cd"; "dc"].
Proof. reflexivity. Qed.

Example scenario_A_vertical :
  Grid.vertical_lines grid_abcd = Ok ["ac"; "ca"; "bd"; "db"].
Proof. reflexivity. Qed.

Example scenario_A_diagonal :
  Grid.diagonal_lines grid_abcd
  = Ok (list_to_set ["ad"; "da"; "a"; "b"; "bc"; "cb"]).
Proof. by vm_compute. Qed.

Example scenario_B :
  Finder.find_words elements (one_file ["cat" +:+ newline]) grid_cat
    "words.txt" = Ok ["cat"].
Proof. by vm_compute. Qed.

Example scenario_C :
  Finder.find_words elements (one_file ["cat" +:+ newline])
    {| Grid.grid := [["x"; "y"]; ["z"; "w"]]%char;
       Grid.length := 2; Grid.depth := 2 |}
    "words.txt" = Ok [].
Proof. by vm_compute. Qed.

Example ragged_vertical_raises :
  Grid.vertical_lines
    {| Grid.grid := [["a"; "b"]; ["c"]]%char;
       Grid.length := 2; Grid.depth := 2 |}
  = Raise IndexError.
Proof. reflexivity. Qed.

Example ragged_diagonal_raises :
  Grid.diagonal_lines
    {| Grid.grid := [["a"; "b"]; ["c"]]%char;
       Grid.length := 2; Grid.depth := 2 |}
  = Raise IndexError.
Proof. reflexivity. Qed.

(** * The claims *)

(** C1. For every rectangular grid, [Grid.diagonal_lines] returns exactly
    the set of strings produced by the algorithm of the specification: for
    each offset from 0 to width-1 the walk over the rows 0 to depth-1 seeds
    both accumulators with [grid[0][offset]] at row 0, then appends
    [grid[i][i+offset]] to the right accumulator when [i+offset < width]
    and [grid[i][i+offset-2]] to the left accumulator when
    [0 <= i+offset-2 < width]; after each walk every non-empty accumulator
    and its reverse join the result set. *)
Theorem diagonal_lines_refines_spec (g : Grid.t) :
  rectangular g → Grid.diagonal_lines g = Ok (Spec.diagonal_lines g).
Proof. apply diagonal_lines_spec. Qed.

Lemma diagonal_lines_refines_spec_witness :
  rectangular grid_abcd ∧
  Grid.diagonal_lines grid_abcd = Ok (Spec.diagonal_lines grid_abcd).
Proof.
  assert (rectangular grid_abcd) as H by rect.
  split; [exact H | exact (diagonal_lines_refines_spec grid_abcd H)].
Defined.

(** C3, as the program has it. Constructing a [Grid] never fails: the
    constructor stores the rows, the width and the height it is given and
    checks no shape. *)
Theorem init_stores_unchecked (rows : GRID_TYPE) (length depth : Z) :
  ∃ g, Grid.__init__ rows length depth = Ok g ∧
       Grid.grid g = rows ∧ Grid.length g = length ∧ Grid.depth g = depth.
Proof. by eexists. Qed.

(** C3 fails as stated: a ragged matrix with one row too few is accepted. *)
Lemma init_accepts_ragged_rows :
  ∃ g, Grid.__init__ [["a"; "b"; "c"]; ["d"]]%char 3 3 = Ok g ∧
       ¬ rectangular g.
Proof.
  eexists. split; [reflexivity|]. intros [Hdepth _]. discriminate Hdepth.
Qed.

(** C7. For every rectangular grid of height [h], [horizontal_lines] has
    exactly [2h] entries; entry [2i] is row [i] read left to right and
    entry [2i+1] is the reverse of entry [2i]. *)
Theorem horizontal_lines_pairs (g : Grid.t) :
  rectangular g →
  Z.of_nat (length (Grid.horizontal_lines g)) = 2 * Grid.depth g ∧
  ∀ (i : nat) (row : list ascii),
    Grid.grid g !! i = Some row →
    Grid.horizontal_lines g !! (2 * i)%nat = Some (join row) ∧
    Grid.horizontal_lines g !! (2 * i + 1)%nat
    = Some (reversed (join row)).
Proof.
  intros [Hdepth _]. rewrite horizontal_lines_closed. unfold rows_both_ways.
  split.
  - rewrite length_pairs. lia.
  - intros i row Hrow.
    by apply (lookup_pairs join (λ row, reversed (join row))).
Qed.

Lemma horizontal_lines_pairs_witness :
  rectangular grid_abcd ∧
  Z.of_nat (length (Grid.horizontal_lines grid_abcd))
  = 2 * Grid.depth grid_abcd ∧
  ∀ (i : nat) (row : list ascii),
    Grid.grid grid_abcd !! i = Some row →
    Grid.horizontal_lines grid_abcd !! (2 * i)%nat = Some (join row) ∧
    Grid.horizontal_lines grid_abcd !! (2 * i + 1)%nat
    = Some (reversed (join row)).
Proof.
  assert (rectangular grid_abcd) as H by rect.
  split; [exact H | exact (horizontal_lines_pairs grid_abcd H)].
Defined.

(** C8. For every rectangular grid, [diagonal_lines] holds no string twice
    and is closed under reversal: with every string it holds the reverse
    of that string. *)
Theorem diagonal_lines_reversal_closed (g : Grid.t) :
  rectangular g →
  ∃ D, Grid.diagonal_lines g = Ok D ∧
       NoDup (elements D) ∧
       ∀ s, s ∈ D → reversed s ∈ D.
Proof.
  intros Hrect. exists (Spec.diagonal_lines g).
  split; [by apply diagonal_lines_spec|].
  split; [apply NoDup_elements|]. apply diagonal_spec_reversed.
Qed.

Lemma diagonal_lines_reversal_closed_witness :
  rectangular grid_abcd ∧
  ∃ D, Grid.diagonal_lines grid_abcd = Ok D ∧
       NoDup (elements D) ∧
       ∀ s, s ∈ D → reversed s ∈ D.
Proof.
  assert (rectangular grid_abcd) as H by rect.
  split; [exact H | exact (diagonal_lines_reversal_closed grid_abcd H)].
Defined.

(** C9. For every rectangular grid, every string of [horizontal_lines],
    of [vertical_lines], of [diagonal_lines] and of [lines] is at most
    [max_size = max(length, depth)] long, so no word longer than [max_size]
    is a substring of a line. *)
Theorem lines_within_max_size (set_iter : gset string → list string)
    (g : Grid.t) :
  (∀ X, set_iter X ≡ₚ elements X) →
  rectangular g →
  ∃ V D ls,
    Grid.vertical_lines g = Ok V ∧
    Grid.diagonal_lines g = Ok D ∧
    Grid.lines set_iter g = Ok ls ∧
    ∀ s, s ∈ Grid.horizontal_lines g ∨ s ∈ V ∨ s ∈ D ∨ s ∈ ls →
         len s ≤ Grid.max_size g ∧
         ∀ w, substring w s → len w ≤ Grid.max_size g.
Proof.
  intros Hperm Hrect.
  exists (columns_both_ways g), (Spec.diagonal_lines g),
         (columns_both_ways g ++ rows_both_ways g
          ++ set_iter (Spec.diagonal_lines g)).
  split; [by apply vertical_lines_closed|].
  split; [by apply diagonal_lines_spec|].
  split; [by apply lines_closed|].
  intros s Hs. assert (fits g s) as [Hlen _].
  { rewrite horizontal_lines_closed in Hs.
    destruct Hs as [?|[?|[?|?]]];
      eauto using fits_vertical, fits_horizontal, fits_diagonal, fits_lines. }
  split; [done|]. intros w Hw%str_in_substring%str_in_len. lia.
Qed.

Lemma lines_within_max_size_witness :
  (∀ X : gset string, elements X ≡ₚ elements X) ∧
  rectangular grid_abcd ∧
  ∃ V D ls,
    Grid.vertical_lines grid_abcd = Ok V ∧
    Grid.diagonal_lines grid_abcd = Ok D ∧
    Grid.lines elements grid_abcd = Ok ls ∧
    ∀ s, s ∈ Grid.horizontal_lines grid_abcd ∨ s ∈ V ∨ s ∈ D ∨ s ∈ ls →
         len s ≤ Grid.max_size grid_abcd ∧
         ∀ w, substring w s → len w ≤ Grid.max_size grid_abcd.
Proof.
  assert (∀ X : gset string, elements X ≡ₚ elements X) as Hperm
    by (intros X; reflexivity).
  assert (rectangular grid_abcd) as H by rect.
  split; [exact Hperm|].
  split; [exact H | exact (lines_within_max_size elements grid_abcd Hperm H)].
Defined.

(** C10. On a rectangular grid every cell access of [diagonal_lines] and
    of [vertical_lines] is within bounds: both return a value, no
    [IndexError] is raised, and the unguarded seed access
    [grid[0][offset]] of each diagonal walk succeeds. *)
Theorem views_never_out_of_bounds (g : Grid.t) :
  rectangular g →
  (∃ D, Grid.diagonal_lines g = Ok D) ∧
  (∃ V, Grid.vertical_lines g = Ok V) ∧
  ∀ offset, offset ∈ range 0 (Grid.length g) →
            0 ∈ range 0 (Grid.depth g) →
            ∃ c, Grid.cell g 0 offset = Ok c.
Proof.
  intros Hrect.
  split; [eexists; by apply diagonal_lines_spec|].
  split; [eexists; by apply vertical_lines_closed|].
  intros offset Ho%elem_of_range Hd%elem_of_range.
  eexists. by apply cell_Ok.
Qed.

Lemma views_never_out_of_bounds_witness :
  rectangular grid_abcd ∧
  (∃ D, Grid.diagonal_lines grid_abcd = Ok D) ∧
  (∃ V, Grid.vertical_lines grid_abcd = Ok V) ∧
  ∀ offset, offset ∈ range 0 (Grid.length grid_abcd) →
            0 ∈ range 0 (Grid.depth grid_abcd) →
            ∃ c, Grid.cell grid_abcd 0 offset = Ok c.
Proof.
  assert (rectangular grid_abcd) as H by rect.
  split; [exact H | exact (views_never_out_of_bounds grid_abcd H)].
Defined.

(** ** The search *)

Lemma filter_none {A : Type} (f : A → bool) (l : list A) :
  (∀ x, x ∈ l → f x = false) → List.filter f l = [].
Proof.
  induction l as [|x l IH]; intros Hf; [done|].
  simpl. rewrite Hf by apply list_elem_of_here.
  apply IH. intros y Hy. by apply Hf, list_elem_of_further.
Qed.

Lemma len_nonpos (s : string) : len s ≤ 0 → s = "".
Proof. destruct s; [done|]. unfold len. simpl. lia. Qed.

(** On lines that fit the grid, the two cheap filters and the search in the
    joined corpus select the words that occur in some line. *)
Lemma candidate_iff (g : Grid.t) (ls : list string) (w : string) :
  (∀ l, l ∈ ls → fits g l) →
  w ≠ "" → str_in "|" w = false →
  (len w <=? Grid.max_size g) && first_in (Grid.letters g) w
    && str_in w (str_join "|" ls)
  = existsb (str_in w) ls.
Proof.
  intros Hfits Hw Hsep. apply eq_true_iff_eq.
  rewrite !andb_true_iff, existsb_exists. split.
  - intros [_ Hin]. apply str_in_str_join_inv in Hin as (p & Hp & Hin);
      [|done..].
    exists p. by rewrite <- list_elem_of_In.
  - intros (p & Hp%list_elem_of_In & Hin).
    destruct (Hfits p Hp) as [Hlen Hletters].
    split; [split|].
    + apply Z.leb_le. apply str_in_len in Hin. lia.
    + destruct w as [|c w]; [done|]. simpl.
      apply bool_decide_eq_true, Hletters. by eapply str_in_first.
    + by eapply str_in_str_join.
Qed.

Lemma existsb_str_in (ls : list string) (w : string) :
  existsb (str_in w) ls = true ↔ ∃ l, l ∈ ls ∧ substring w l.
Proof.
  rewrite existsb_exists. split; intros (l & Hl & Hw); exists l.
  - by rewrite list_elem_of_In, <- str_in_substring.
  - by rewrite <- list_elem_of_In, str_in_substring.
Qed.

(** C2, as the program has it. For every rectangular grid and every
    readable word file whose stripped words are non-empty and free of the
    separator ["|"], [find_words] returns exactly the source words that
    occur as a contiguous substring of some line of [grid.lines], in source
    order, duplicates kept: joined with ["|"], the lines let no such word
    match across the boundary between two of them. *)
Theorem find_words_exact (set_iter : gset string → list string)
    (fs : string → Path) (g : Grid.t) (path : string)
    (raw : list string) :
  (∀ X, set_iter X ≡ₚ elements X) →
  rectangular g →
  exists_ (fs path) = Ok true →
  is_file (fs path) = Ok true →
  readlines (fs path) = Ok raw →
  (∀ w, w ∈ strip <$> raw → w ≠ "" ∧ str_in "|" w = false) →
  ∃ ls,
    Grid.lines set_iter g = Ok ls ∧
    Finder.find_words set_iter fs g path
    = Ok (List.filter (λ w, existsb (str_in w) ls) (strip <$> raw)) ∧
    ∀ w, existsb (str_in w) ls = true ↔ ∃ l, l ∈ ls ∧ substring w l.
Proof.
  intros Hperm Hrect Hex Hfile Hraw Hwords.
  exists (columns_both_ways g ++ rows_both_ways g
          ++ set_iter (Spec.diagonal_lines g)).
  split; [by apply lines_closed|].
  split; [|apply existsb_str_in].
  pose proof (fits_lines g Hrect set_iter Hperm) as Hfits.
  unfold Finder.find_words, Finder.find_words_in, read_words,
    exists_and_is_file.
  rewrite Hex. cbn [mbind result_bind]. rewrite Hfile, Hraw.
  destruct (Z.ltb_spec (Grid.max_size g) 1) as [Hsmall|Hbig].
  - rewrite filter_none; [done|]. intros w [Hw _]%Hwords.
    apply not_true_is_false.
    intros (l & Hl%list_elem_of_In & Hin)%existsb_exists.
    destruct (Hfits l Hl) as [Hlen _].
    rewrite (len_nonpos l) in Hin by lia.
    by apply str_in_nil_r in Hin.
  - rewrite (lines_closed g Hrect). cbn [mbind result_bind].
    rewrite search_pipeline by (intros w Hw; by apply Hwords).
    cbn [app]. f_equal. apply filter_ext_in.
    intros w [Hw Hsep]%list_elem_of_In%Hwords.
    by apply candidate_iff.
Qed.

Lemma find_words_exact_witness :
  (∀ X : gset string, elements X ≡ₚ elements X) ∧
  rectangular grid_cat ∧
  exists_ (one_file ["cat" +:+ newline; "dog"; "ta"] "words.txt")
  = Ok true ∧
  is_file (one_file ["cat" +:+ newline; "dog"; "ta"] "words.txt")
  = Ok true ∧
  readlines (one_file ["cat" +:+ newline; "dog"; "ta"] "words.txt")
  = Ok ["cat" +:+ newline; "dog"; "ta"] ∧
  (∀ w, w ∈ strip <$> ["cat" +:+ newline; "dog"; "ta"] →
        w ≠ "" ∧ str_in "|" w = false) ∧
  ∃ ls,
    Grid.lines elements grid_cat = Ok ls ∧
    Finder.find_words elements
      (one_file ["cat" +:+ newline; "dog"; "ta"]) grid_cat "words.txt"
    = Ok (List.filter (λ w, existsb (str_in w) ls)
            (strip <$> ["cat" +:+ newline; "dog"; "ta"])) ∧
    ∀ w, existsb (str_in w) ls = true ↔ ∃ l, l ∈ ls ∧ substring w l.
Proof.
  assert (∀ X : gset string, elements X ≡ₚ elements X) as Hperm
    by (intros X; reflexivity).
  assert (rectangular grid_cat) as Hrect by rect.
  assert (∀ w, w ∈ strip <$> ["cat" +:+ newline; "dog"; "ta"] →
               w ≠ "" ∧ str_in "|" w = false) as Hwords.
  { intros w Hw. vm_compute in Hw.
    repeat (apply elem_of_cons in Hw as [->|Hw]; [by vm_compute|]).
    by apply elem_of_nil in Hw. }
  split; [exact Hperm|]. split; [exact Hrect|].
  split; [reflexivity|]. split; [reflexivity|]. split; [reflexivity|].
  split; [exact Hwords|].
  exact (find_words_exact elements
           (one_file ["cat" +:+ newline; "dog"; "ta"]) grid_cat "words.txt"
           ["cat" +:+ newline; "dog"; "ta"] Hperm Hrect
           eq_refl eq_refl eq_refl Hwords).
Defined.

(** C2 fails as stated: a source word that holds the separator matches the
    corpus across the boundary between two lines. On the grid [a b] the
    corpus starts with ["a|a|"], so the word ["a|"] is returned although
    no line contains it. *)
Lemma find_words_matches_across_lines :
  Grid.lines elements grid_ab
  = Ok ["a"; "a"; "b"; "b"; "ab"; "ba"; "a"; "b"] ∧
  Finder.find_words elements (one_file ["a|" +:+ newline]) grid_ab
    "words.txt" = Ok ["a|"] ∧
  List.filter
    (λ w, existsb (str_in w) ["a"; "a"; "b"; "b"; "ab"; "ba"; "a"; "b"])
    (strip <$> ["a|" +:+ newline]) = [].
Proof. by vm_compute. Qed.

(** C4 fails on the program: a blank line in the word file reaches
    [word[0]] in [filter_by_letters] as the empty word, and the search ends
    with [IndexError], also after a word was already matched. *)
Theorem find_words_blank_line_IndexError
    (set_iter : gset string → list string) :
  Finder.find_words set_iter (one_file ["cat" +:+ newline; newline])
    grid_cat "words.txt" = Raise IndexError.
Proof.
  assert (rectangular grid_cat) as Hrect by rect.
  assert (read_words (one_file ["cat" +:+ newline; newline]) "words.txt"
          = gen_app ["cat"] (Yield "" Stop)) as Hread by by vm_compute.
  unfold Finder.find_words, Finder.find_words_in. rewrite Hread.
  change (Grid.max_size grid_cat <? 1) with false. cbn match.
  rewrite (lines_closed grid_cat Hrect). cbn [mbind result_bind].
  apply search_empty_word; [|done].
  by intros w ->%list_elem_of_singleton.
Qed.

(** C6. For every grid with [max_size < 1] and every word source,
    [find_words] returns the empty list at once: the result does not depend
    on the source, be it a generator that raises as soon as it is iterated
    or a path to no file. *)
Theorem find_words_degenerate (set_iter : gset string → list string)
    (g : Grid.t) :
  Grid.max_size g < 1 →
  (∀ words : gen string, Finder.find_words_in set_iter g words = Ok []) ∧
  (∀ fs path, Finder.find_words set_iter fs g path = Ok []).
Proof.
  intros Hsmall.
  assert (∀ words, Finder.find_words_in set_iter g words = Ok []) as Hin.
  { intros words. unfold Finder.find_words_in.
    by rewrite (proj2 (Z.ltb_lt _ _)). }
  split; [done|]. intros fs path. apply Hin.
Qed.

Lemma find_words_degenerate_witness :
  Grid.max_size grid_empty < 1 ∧
  (∀ words : gen string,
     Finder.find_words_in elements grid_empty words = Ok []) ∧
  (∀ fs path, Finder.find_words elements fs grid_empty path = Ok []).
Proof.
  assert (Grid.max_size grid_empty < 1) as H by reflexivity.
  split; [exact H | exact (find_words_degenerate elements grid_empty H)].
Defined.

(** How [read_words] ends on a path that names no existing readable plain
    file: with [FileNotFoundError] when one of the two checks answers
    [False], and with the error that a check or the read raised
    otherwise. *)
Lemma read_words_unavailable (fs : string → Path) (path : string) :
  ¬ readable_plain_file (fs path) →
  ∃ e, read_words fs path = Throw e ∧
       (exists_ (fs path) = Raise e ∨
        (exists_ (fs path) = Ok false ∧ e = FileNotFoundError) ∨
        (exists_ (fs path) = Ok true ∧ is_file (fs path) = Raise e) ∨
        (exists_ (fs path) = Ok true ∧ is_file (fs path) = Ok false ∧
         e = FileNotFoundError) ∨
        (exists_ (fs path) = Ok true ∧ is_file (fs path) = Ok true ∧
         readlines (fs path) = Raise e)).
Proof.
  intros Hnot. unfold read_words, exists_and_is_file.
  destruct (exists_ (fs path)) as [[|]|e1] eqn:Hex; cbn [mbind result_bind].
  - destruct (is_file (fs path)) as [[|]|e2] eqn:Hfile.
    + destruct (readlines (fs path)) as [lines|e3] eqn:Hread.
      * destruct Hnot. split; [done|]. split; [done|]. by exists lines.
      * exists e3. split; [done|]. do 4 right. done.
    + exists FileNotFoundError. split; [done|]. do 3 right. left. done.
    + exists e2. split; [done|]. do 2 right. left. done.
  - exists FileNotFoundError. split; [done|]. right. left. done.
  - exists e1. split; [done|]. by left.
Qed.

(** C5, as the program has it. For every rectangular grid with
    [max_size >= 1] and every path that does not name an existing readable
    plain file, [find_words] fails and returns no list: with
    [FileNotFoundError] when [exists()] or [is_file()] answers [False],
    and otherwise with the error that [exists()], [is_file()] or the read
    of the file raised. *)
Theorem find_words_source_unavailable
    (set_iter : gset string → list string) (fs : string → Path)
    (g : Grid.t) (path : string) :
  rectangular g →
  1 ≤ Grid.max_size g →
  ¬ readable_plain_file (fs path) →
  ∃ e, Finder.find_words set_iter fs g path = Raise e ∧
       (exists_ (fs path) = Raise e ∨
        (exists_ (fs path) = Ok false ∧ e = FileNotFoundError) ∨
        (exists_ (fs path) = Ok true ∧ is_file (fs path) = Raise e) ∨
        (exists_ (fs path) = Ok true ∧ is_file (fs path) = Ok false ∧
         e = FileNotFoundError) ∨
        (exists_ (fs path) = Ok true ∧ is_file (fs path) = Ok true ∧
         readlines (fs path) = Raise e)).
Proof.
  intros Hrect Hbig Hnot.
  destruct (read_words_unavailable fs path Hnot) as (e & Hread & Hwhich).
  exists e. split; [|done].
  unfold Finder.find_words, Finder.find_words_in. rewrite Hread.
  rewrite (proj2 (Z.ltb_ge _ _)) by done.
  by rewrite (lines_closed g Hrect).
Qed.

Lemma find_words_source_unavailable_witness :
  (rectangular grid_cat ∧
   1 ≤ Grid.max_size grid_cat ∧
   ¬ readable_plain_file no_such_file ∧
   ∃ e, Finder.find_words elements (λ _, no_such_file) grid_cat
          "nowhere.txt" = Raise e ∧
        (exists_ no_such_file = Raise e ∨
         (exists_ no_such_file = Ok false ∧ e = FileNotFoundError) ∨
         (exists_ no_such_file = Ok true ∧ is_file no_such_file = Raise e) ∨
         (exists_ no_such_file = Ok true ∧ is_file no_such_file = Ok false ∧
          e = FileNotFoundError) ∨
         (exists_ no_such_file = Ok true ∧ is_file no_such_file = Ok true ∧
          readlines no_such_file = Raise e))) ∧
  (¬ readable_plain_file directory ∧
   ∃ e, Finder.find_words elements (λ _, directory) grid_cat "words"
        = Raise e ∧
        (exists_ directory = Raise e ∨
         (exists_ directory = Ok false ∧ e = FileNotFoundError) ∨
         (exists_ directory = Ok true ∧ is_file directory = Raise e) ∨
         (exists_ directory = Ok true ∧ is_file directory = Ok false ∧
          e = FileNotFoundError) ∨
         (exists_ directory = Ok true ∧ is_file directory = Ok true ∧
          readlines directory = Raise e))) ∧
  (¬ readable_plain_file locked_file ∧
   ∃ e, Finder.find_words elements (λ _, locked_file) grid_cat "locked.txt"
        = Raise e ∧
        (exists_ locked_file = Raise e ∨
         (exists_ locked_file = Ok false ∧ e = FileNotFoundError) ∨
         (exists_ locked_file = Ok true ∧ is_file locked_file = Raise e) ∨
         (exists_ locked_file = Ok true ∧ is_file locked_file = Ok false ∧
          e = FileNotFoundError) ∨
         (exists_ locked_file = Ok true ∧ is_file locked_file = Ok true ∧
          readlines locked_file = Raise e))) ∧
  (¬ readable_plain_file unexaminable ∧
   ∃ e, Finder.find_words elements (λ _, unexaminable) grid_cat "aaaa"
        = Raise e ∧
        (exists_ unexaminable = Raise e ∨
         (exists_ unexaminable = Ok false ∧ e = FileNotFoundError) ∨
         (exists_ unexaminable = Ok true ∧ is_file unexaminable = Raise e) ∨
         (exists_ unexaminable = Ok true ∧ is_file unexaminable = Ok false ∧
          e = FileNotFoundError) ∨
         (exists_ unexaminable = Ok true ∧ is_file unexaminable = Ok true ∧
          readlines unexaminable = Raise e))).
Proof.
  assert (rectangular grid_cat) as Hrect by rect.
  assert (1 ≤ Grid.max_size grid_cat) as Hbig by (vm_compute; discriminate).
  assert (¬ readable_plain_file no_such_file) as Hmissing
    by (intros [H _]; discriminate H).
  assert (¬ readable_plain_file directory) as Hdir
    by (intros (_ & H & _); discriminate H).
  assert (¬ readable_plain_file locked_file) as Hlocked
    by (intros (_ & _ & lines & H); discriminate H).
  assert (¬ readable_plain_file unexaminable) as Hlong
    by (intros [H _]; discriminate H).
  split; [|split; [|split]].
  - split; [exact Hrect|]. split; [exact Hbig|]. split; [exact Hmissing|].
    exact (find_words_source_unavailable elements (λ _, no_such_file)
             grid_cat "nowhere.txt" Hrect Hbig Hmissing).
  - split; [exact Hdir|].
    exact (find_words_source_unavailable elements (λ _, directory)
             grid_cat "words" Hrect Hbig Hdir).
  - split; [exact Hlocked|].
    exact (find_words_source_unavailable elements (λ _, locked_file)
             grid_cat "locked.txt" Hrect Hbig Hlocked).
  - split; [exact Hlong|].
    exact (find_words_source_unavailable elements (λ _, unexaminable)
             grid_cat "aaaa" Hrect Hbig Hlong).
Defined.

(** C5 fails as stated, in three ways. On the empty grid the search of a
    file that does not exist returns the empty list instead of failing. On
    the grid [c a t], a plain file that may not be read makes the search
    fail with [PermissionError], and a path that cannot be examined makes
    it fail with [OSError], neither being the [FileNotFoundError] that the
    program raises for an unavailable source. On a ragged grid the search
    of a file that does not exist fails with [IndexError]. *)
Lemma find_words_missing_file_empty_grid :
  (exists_ no_such_file = Ok false ∧
   Finder.find_words elements (λ _, no_such_file) grid_empty "nowhere.txt"
   = Ok []) ∧
  (¬ readable_plain_file locked_file ∧
   Finder.find_words elements (λ _, locked_file) grid_cat "locked.txt"
   = Raise PermissionError) ∧
  (¬ readable_plain_file unexaminable ∧
   Finder.find_words elements (λ _, unexaminable) grid_cat "aaaa"
   = Raise OSError) ∧
  (¬ readable_plain_file no_such_file ∧
   Finder.find_words elements (λ _, no_such_file) grid_ragged "nowhere.txt"
   = Raise IndexError).
Proof.
  split; [by vm_compute|].
  split; [split; [intros (_ & _ & lines & H); discriminate H
                 |by vm_compute]|].
  split; [split; [intros [H _]; discriminate H|by vm_compute]|].
  split; [intros [H _]; discriminate H|by vm_compute].
Qed.

(** * Further properties *)

(** ** Stripping *)

Lemma join_app (l1 l2 : list ascii) : join (l1 ++ l2) = join l1 +:+ join l2.
Proof.
  induction l1 as [|c l1 IH]; [done|].
  simpl. rewrite append_cons. f_equal. apply IH.
Qed.

Lemma reversed_app (a b : string) :
  reversed (a +:+ b) = reversed b +:+ reversed a.
Proof. unfold reversed. by rewrite chars_app, rev_app_distr, join_app. Qed.

Lemma all_space_reversed (s : string) : all_space s → all_space (reversed s).
Proof.
  unfold all_space. rewrite chars_reversed, !Forall_forall.
  intros H c Hc. apply H. by rewrite list_elem_of_In, in_rev, <- list_elem_of_In.
Qed.

Lemma lstrip_split (s : string) :
  ∃ a, s = a +:+ lstrip s ∧ all_space a ∧ starts_clean (lstrip s).
Proof.
  induction s as [|c s (a & Hs & Ha & Hclean)].
  - exists "". split; [done|]. split; [constructor|done].
  - simpl. destruct (isspace c) eqn:Hc.
    + exists (String c a). rewrite append_cons, <- Hs.
      split; [done|]. split; [by constructor|done].
    + exists "". split; [done|]. split; [constructor|done].
Qed.

Lemma starts_clean_prefix (a b : string) :
  a ≠ "" → starts_clean (a +:+ b) → starts_clean a.
Proof. by destruct a. Qed.

Lemma strip_split (s : string) :
  ∃ a b, s = a +:+ strip s +:+ b ∧ all_space a ∧ all_space b ∧
         starts_clean (strip s) ∧ starts_clean (reversed (strip s)).
Proof.
  destruct (lstrip_split s) as (a & Hs & Ha & Hclean).
  destruct (lstrip_split (reversed (lstrip s))) as (b & Ht & Hb & Hclean').
  assert (lstrip s = strip s +:+ reversed b) as Hmid.
  { rewrite <- (reversed_involutive (lstrip s)), Ht at 1.
    by rewrite reversed_app. }
  exists a, (reversed b). unfold strip in *.
  repeat split.
  - by rewrite <- Hmid.
  - done.
  - by apply all_space_reversed.
  - destruct (decide (reversed (lstrip (reversed (lstrip s))) = ""))
      as [->|Hne]; [done|].
    apply (starts_clean_prefix _ (reversed b)); [done|].
    by rewrite <- Hmid.
  - by rewrite reversed_involutive.
Qed.

(** ** The generators on their own *)

Lemma gen_items_of_list {A : Type} (xs : list A) :
  gen_items (gen_of_list xs) = xs.
Proof. induction xs; simpl; congruence. Qed.

Lemma gen_end_of_list {A : Type} (xs : list A) :
  gen_end (gen_of_list xs) = None.
Proof. by induction xs. Qed.

(** X1. On a readable plain file [read_words] yields one word per line, in
    order, and then stops without an exception. Each word is its line
    without the white space at both ends: the line is the word between two
    runs of white space, and the word neither starts nor ends with white
    space (a blank line gives the empty word). *)
Theorem read_words_strips_lines (fs : string → Path) (path : string)
    (raw : list string) :
  exists_ (fs path) = Ok true →
  is_file (fs path) = Ok true →
  readlines (fs path) = Ok raw →
  gen_end (read_words fs path) = None ∧
  Forall2
    (λ line word,
       ∃ a b, line = a +:+ word +:+ b ∧ all_space a ∧ all_space b ∧
              starts_clean word ∧ starts_clean (reversed word))
    raw (gen_items (read_words fs path)).
Proof.
  intros Hex Hfile Hraw. unfold read_words, exists_and_is_file.
  rewrite Hex. cbn [mbind result_bind]. rewrite Hfile, Hraw.
  rewrite gen_end_of_list, gen_items_of_list.
  split; [done|]. apply Forall2_fmap_r, Forall_Forall2_diag, Forall_forall.
  intros line _. apply strip_split.
Qed.

Lemma read_words_strips_lines_witness :
  exists_ (one_file ["  cat" +:+ newline; newline] "words.txt")
  = Ok true ∧
  is_file (one_file ["  cat" +:+ newline; newline] "words.txt")
  = Ok true ∧
  readlines (one_file ["  cat" +:+ newline; newline] "words.txt")
  = Ok ["  cat" +:+ newline; newline] ∧
  gen_end (read_words (one_file ["  cat" +:+ newline; newline])
             "words.txt") = None ∧
  Forall2
    (λ line word,
       ∃ a b, line = a +:+ word +:+ b ∧ all_space a ∧ all_space b ∧
              starts_clean word ∧ starts_clean (reversed word))
    ["  cat" +:+ newline; newline]
    (gen_items (read_words (one_file ["  cat" +:+ newline; newline])
                  "words.txt")).
Proof.
  split; [reflexivity|]. split; [reflexivity|]. split; [reflexivity|].
  exact (read_words_strips_lines
           (one_file ["  cat" +:+ newline; newline]) "words.txt"
           ["  cat" +:+ newline; newline] eq_refl eq_refl eq_refl).
Defined.

(** X2. [filter_by_length] keeps, in order, exactly the yielded words of
    length at most [length], raises nothing of its own and passes on the
    exception that ends its source. *)
Theorem filter_by_length_keeps_short (words : gen string) (m : Z) :
  gen_items (filter_by_length words m)
  = List.filter (λ w, len w <=? m) (gen_items words) ∧
  gen_end (filter_by_length words m) = gen_end words.
Proof.
  induction words as [|w rest [IHitems IHend]|e]; [done| |done].
  simpl. destruct (len w <=? m); simpl; by rewrite ?IHitems.
Qed.

(** X3. As long as its source yields no empty word, [filter_by_letters]
    keeps, in order, exactly the words whose first character is in
    [letters], and passes on the exception that ends its source. *)
Theorem filter_by_letters_keeps_initials (words : gen string)
    (letters : gset ascii) :
  (∀ w, w ∈ gen_items words → w ≠ "") →
  gen_items (filter_by_letters words letters)
  = List.filter (first_in letters) (gen_items words) ∧
  gen_end (filter_by_letters words letters) = gen_end words.
Proof.
  induction words as [|w rest IH|e]; intros Hne; [done| |done].
  assert (w ≠ "") as Hw by apply Hne, list_elem_of_here.
  destruct IH as [IHitems IHend].
  { intros w' ?. by apply Hne, list_elem_of_further. }
  destruct w as [|c w]; [done|].
  cbn [filter_by_letters gen_items List.filter first_in].
  rewrite str_getitem_0_cons.
  destruct (bool_decide (c ∈ letters)); simpl; by rewrite ?IHitems.
Qed.

Lemma filter_by_letters_keeps_initials_witness :
  (∀ w, w ∈ gen_items (Yield "cat" (Yield "dog" (Throw OSError))) →
        w ≠ "") ∧
  gen_items (filter_by_letters (Yield "cat" (Yield "dog" (Throw OSError)))
               (Grid.letters grid_cat))
  = List.filter (first_in (Grid.letters grid_cat))
      (gen_items (Yield "cat" (Yield "dog" (Throw OSError)))) ∧
  gen_end (filter_by_letters (Yield "cat" (Yield "dog" (Throw OSError)))
             (Grid.letters grid_cat))
  = gen_end (Yield "cat" (Yield "dog" (Throw OSError))).
Proof.
  assert (∀ w, w ∈ gen_items (Yield "cat" (Yield "dog" (Throw OSError))) →
               w ≠ "") as H.
  { intros w Hw. simpl in Hw.
    repeat (apply elem_of_cons in Hw as [->|Hw]; [done|]).
    by apply elem_of_nil in Hw. }
  split; [exact H|].
  exact (filter_by_letters_keeps_initials _ (Grid.letters grid_cat) H).
Defined.

(** X4. The first empty word ends [filter_by_letters] with [IndexError]:
    the words before it are filtered as usual, everything after it is
    lost, be it further words or the exception of the source. *)
Theorem filter_by_letters_stops_at_blank (ws : list string)
    (rest : gen string) (letters : gset ascii) :
  (∀ w, w ∈ ws → w ≠ "") →
  filter_by_letters (gen_app ws (Yield "" rest)) letters
  = gen_app (List.filter (first_in letters) ws) (Throw IndexError).
Proof.
  induction ws as [|w ws IH]; intros Hne; [done|].
  assert (w ≠ "") as Hw by apply Hne, list_elem_of_here.
  destruct w as [|c w]; [done|].
  cbn [gen_app filter_by_letters List.filter first_in].
  rewrite str_getitem_0_cons, IH.
  - by destruct (bool_decide (c ∈ letters)).
  - intros w' ?. by apply Hne, list_elem_of_further.
Qed.

Lemma filter_by_letters_stops_at_blank_witness :
  (∀ w, w ∈ ["cat"; "dog"] → w ≠ "") ∧
  filter_by_letters (gen_app ["cat"; "dog"] (Yield "" (Yield "act" Stop)))
    (Grid.letters grid_cat)
  = gen_app (List.filter (first_in (Grid.letters grid_cat)) ["cat"; "dog"])
      (Throw IndexError).
Proof.
  assert (∀ w, w ∈ ["cat"; "dog"] → w ≠ "") as H.
  { intros w Hw.
    repeat (apply elem_of_cons in Hw as [->|Hw]; [done|]).
    by apply elem_of_nil in Hw. }
  split; [exact H|].
  exact (filter_by_letters_stops_at_blank ["cat"; "dog"]
           (Yield "act" Stop) (Grid.letters grid_cat) H).
Defined.

(** ** The search on any grid and any source *)

Section AnySource.
Variables (corpus : string) (letters : gset ascii) (m : Z).

Lemma search_acc (words : gen string) (acc : list string) :
  Finder.search corpus words acc
  = r ← Finder.search corpus words []; Ok (acc ++ r).
Proof.
  revert acc. induction words as [|w rest IH|e]; intros acc; simpl.
  - by rewrite app_nil_r.
  - destruct (str_in w corpus); [|done].
    rewrite (IH (acc ++ [w])), (IH [w]).
    destruct (Finder.search corpus rest []); simpl; [|done].
    by rewrite <- app_assoc.
  - done.
Qed.

Lemma gen_of_list_app {A : Type} (xs ys : list A) :
  gen_of_list (xs ++ ys) = gen_app xs (gen_of_list ys).
Proof. induction xs; simpl; congruence. Qed.

Lemma search_gen_app (ws : list string) (rest : gen string)
    (acc : list string) :
  Finder.search corpus
    (filter_by_letters (filter_by_length (gen_app ws rest) m) letters) acc
  = r ← Finder.search corpus
          (filter_by_letters (filter_by_length (gen_of_list ws) m) letters)
          acc;
    Finder.search corpus
      (filter_by_letters (filter_by_length rest m) letters) r.
Proof.
  revert acc. induction ws as [|w ws IH]; intros acc; [done|].
  cbn [gen_app gen_of_list filter_by_length].
  destruct (len w <=? m); [|by apply IH].
  cbn [filter_by_letters].
  destruct (str_getitem w 0) as [c|e]; [|done].
  destruct (bool_decide (c ∈ letters)); [|by apply IH].
  cbn [Finder.search]. destruct (str_in w corpus); by apply IH.
Qed.

(** What an [Ok] of the loop says about the words it returns. *)
Lemma search_sound (words : gen string) (acc found : list string) :
  Finder.search corpus
    (filter_by_letters (filter_by_length words m) letters) acc = Ok found →
  ∃ extra, found = acc ++ extra ∧ extra `sublist_of` gen_items words ∧
           ∀ w, w ∈ extra →
                len w ≤ m ∧ first_in letters w = true ∧
                str_in w corpus = true.
Proof.
  revert acc. induction words as [|w rest IH|e]; intros acc.
  - intros [= <-]. exists []. rewrite app_nil_r.
    split; [done|]. split; [done|]. by intros w ?%elem_of_nil.
  - cbn [filter_by_length gen_items].
    destruct (Z.leb_spec (len w) m) as [Hlen|Hlen].
    + cbn [filter_by_letters].
      destruct w as [|c w]; [by rewrite str_getitem_0_empty|].
      rewrite str_getitem_0_cons.
      destruct (bool_decide (c ∈ letters)) eqn:Hc.
      * cbn [Finder.search].
        destruct (str_in (String c w) corpus) eqn:Hin.
        -- intros (extra & -> & Hsub & Hall)%IH.
           exists (String c w :: extra). rewrite <- app_assoc.
           split; [done|]. split; [by apply sublist_skip|].
           intros w' [->|?]%elem_of_cons; [done|by apply Hall].
        -- intros (extra & -> & Hsub & Hall)%IH.
           exists extra. split; [done|]. split; [by apply sublist_cons|done].
      * intros (extra & -> & Hsub & Hall)%IH.
        exists extra. split; [done|]. split; [by apply sublist_cons|done].
    + intros (extra & -> & Hsub & Hall)%IH.
      exists extra. split; [done|]. split; [by apply sublist_cons|done].
  - done.
Qed.

(** A source that ends with an exception and yields no empty word. *)
Lemma search_source_raises (words : gen string) (acc : list string)
    (e : exn) :
  gen_end words = Some e →
  (∀ w, w ∈ gen_items words → w ≠ "") →
  Finder.search corpus
    (filter_by_letters (filter_by_length words m) letters) acc = Raise e.
Proof.
  revert acc. induction words as [|w rest IH|e']; intros acc Hend Hne.
  - done.
  - assert (w ≠ "") as Hw by apply Hne, list_elem_of_here.
    assert (∀ w', w' ∈ gen_items rest → w' ≠ "") as Hne'
      by (intros w' ?; by apply Hne, list_elem_of_further).
    destruct w as [|c w]; [done|].
    cbn [filter_by_length].
    destruct (len (String c w) <=? m); [|by apply IH].
    cbn [filter_by_letters]. rewrite str_getitem_0_cons.
    destruct (bool_decide (c ∈ letters)); [|by apply IH].
    cbn [Finder.search].
    destruct (str_in (String c w) corpus); by apply IH.
  - by injection Hend as ->.
Qed.

End AnySource.

Lemma gen_of_list_items {A : Type} (g : gen A) :
  gen_end g = None → g = gen_of_list (gen_items g).
Proof. induction g; simpl; intros; [done|f_equal; auto|done]. Qed.

(** On a grid with [max_size < 1] no non-empty word passes the length
    test. *)
Lemma candidate_false_small (g : Grid.t) (corpus w : string) :
  Grid.max_size g < 1 → w ≠ "" →
  (len w <=? Grid.max_size g) && first_in (Grid.letters g) w
    && str_in w corpus = false.
Proof.
  intros Hsmall Hw. destruct w as [|c w]; [done|].
  rewrite (proj2 (Z.leb_gt _ _)); [done|]. unfold len. simpl. lia.
Qed.

Lemma find_words_in_clean (set_iter : gset string → list string)
    (g : Grid.t) (words : gen string) :
  rectangular g →
  gen_end words = None →
  (∀ w, w ∈ gen_items words → w ≠ "") →
  ∃ ls, Grid.lines set_iter g = Ok ls ∧
        Finder.find_words_in set_iter g words
        = Ok (List.filter
                (λ w, (len w <=? Grid.max_size g)
                      && first_in (Grid.letters g) w
                      && str_in w (str_join "|" ls))
                (gen_items words)).
Proof.
  intros Hrect Hend Hne. eexists. split; [by apply lines_closed|].
  unfold Finder.find_words_in.
  destruct (Z.ltb_spec (Grid.max_size g) 1) as [Hsmall|Hbig].
  - rewrite filter_none; [done|]. intros w Hw.
    apply candidate_false_small; auto.
  - rewrite (lines_closed g Hrect). cbn [mbind result_bind].
    rewrite (gen_of_list_items words Hend) at 1.
    by rewrite search_pipeline.
Qed.

(** X5. Whatever the grid and the source, a list that [find_words] returns
    is a sub-list of the yielded words, in their order, and each of its
    words is at most [max_size] long, starts with a letter of the grid and
    occurs in the corpus of the joined lines. *)
Theorem find_words_returns_candidates
    (set_iter : gset string → list string) (g : Grid.t)
    (words : gen string) (found : list string) :
  Finder.find_words_in set_iter g words = Ok found →
  found `sublist_of` gen_items words ∧
  ∀ w, w ∈ found →
       len w ≤ Grid.max_size g ∧
       (∃ c w', w = String c w' ∧ c ∈ Grid.letters g) ∧
       ∃ ls, Grid.lines set_iter g = Ok ls ∧
             str_in w (str_join "|" ls) = true.
Proof.
  unfold Finder.find_words_in.
  destruct (Grid.max_size g <? 1).
  { intros [= <-]. split; [apply sublist_nil_l|]. by intros w ?%elem_of_nil. }
  destruct (Grid.lines set_iter g) as [ls|e]; [|done].
  cbn [mbind result_bind].
  intros (extra & -> & Hsub & Hall)%search_sound.
  split; [done|]. intros w (Hlen & Hfirst & Hin)%Hall.
  split; [done|]. split; [|by exists ls].
  destruct w as [|c w]; [done|].
  exists c, w. split; [done|]. by apply bool_decide_eq_true in Hfirst.
Qed.

Lemma find_words_returns_candidates_witness :
  Finder.find_words_in elements grid_cat (gen_of_list ["dog"; "cat"; "at"])
  = Ok ["cat"; "at"] ∧
  ["cat"; "at"] `sublist_of` gen_items (gen_of_list ["dog"; "cat"; "at"]) ∧
  ∀ w, w ∈ ["cat"; "at"] →
       len w ≤ Grid.max_size grid_cat ∧
       (∃ c w', w = String c w' ∧ c ∈ Grid.letters grid_cat) ∧
       ∃ ls, Grid.lines elements grid_cat = Ok ls ∧
             str_in w (str_join "|" ls) = true.
Proof.
  assert (Finder.find_words_in elements grid_cat
            (gen_of_list ["dog"; "cat"; "at"]) = Ok ["cat"; "at"]) as H
    by (vm_compute; reflexivity).
  split; [exact H|].
  exact (find_words_returns_candidates elements grid_cat
           (gen_of_list ["dog"; "cat"; "at"]) ["cat"; "at"] H).
Defined.

(** X6. Searching a word list in two parts gives the same as searching it
    whole: the result for [ws1 ++ ws2] is the result for [ws1] followed by
    the result for [ws2], and it fails exactly when the first failing part
    fails. *)
Theorem find_words_in_app (set_iter : gset string → list string)
    (g : Grid.t) (ws1 ws2 : list string) :
  Finder.find_words_in set_iter g (gen_of_list (ws1 ++ ws2))
  = found1 ← Finder.find_words_in set_iter g (gen_of_list ws1);
    found2 ← Finder.find_words_in set_iter g (gen_of_list ws2);
    Ok (found1 ++ found2).
Proof.
  unfold Finder.find_words_in.
  destruct (Grid.max_size g <? 1); [done|].
  destruct (Grid.lines set_iter g) as [ls|e]; [|done].
  cbn [mbind result_bind].
  rewrite gen_of_list_app, search_gen_app.
  destruct (Finder.search _ (filter_by_letters
              (filter_by_length (gen_of_list ws1) _) _) []) as [found1|e];
    [|done].
  cbn [mbind result_bind]. apply search_acc.
Qed.

(** X7. On a rectangular grid with [max_size >= 1], a source that ends
    with an exception after yielding non-empty words makes [find_words]
    fail with that exception: the words matched so far are not returned. *)
Theorem find_words_in_source_raises
    (set_iter : gset string → list string) (g : Grid.t)
    (words : gen string) (e : exn) :
  rectangular g →
  1 ≤ Grid.max_size g →
  gen_end words = Some e →
  (∀ w, w ∈ gen_items words → w ≠ "") →
  Finder.find_words_in set_iter g words = Raise e.
Proof.
  intros Hrect Hbig Hend Hne. unfold Finder.find_words_in.
  rewrite (proj2 (Z.ltb_ge _ _)) by done.
  rewrite (lines_closed g Hrect). cbn [mbind result_bind].
  by apply search_source_raises.
Qed.

Lemma find_words_in_source_raises_witness :
  rectangular grid_cat ∧
  1 ≤ Grid.max_size grid_cat ∧
  gen_end (Yield "cat" (Throw OSError)) = Some OSError ∧
  (∀ w, w ∈ gen_items (Yield "cat" (Throw OSError)) → w ≠ "") ∧
  Finder.find_words_in elements grid_cat (Yield "cat" (Throw OSError))
  = Raise OSError.
Proof.
  assert (rectangular grid_cat) as Hrect by rect.
  assert (1 ≤ Grid.max_size grid_cat) as Hbig by (vm_compute; discriminate).
  assert (∀ w, w ∈ gen_items (Yield "cat" (Throw OSError)) → w ≠ "")
    as Hne.
  { intros w Hw. simpl in Hw.
    repeat (apply elem_of_cons in Hw as [->|Hw]; [done|]).
    by apply elem_of_nil in Hw. }
  split; [exact Hrect|]. split; [exact Hbig|].
  split; [reflexivity|]. split; [exact Hne|].
  exact (find_words_in_source_raises elements grid_cat
           (Yield "cat" (Throw OSError)) OSError Hrect Hbig eq_refl Hne).
Defined.

(** X8. On a rectangular grid, a source that yields non-empty words and
    stops makes [find_words] return, in source order, exactly the words
    that are at most [max_size] long, start with a letter of the grid and
    occur in the lines joined with ["|"]; it never fails. *)
Theorem find_words_in_clean_source
    (set_iter : gset string → list string) (g : Grid.t)
    (words : gen string) :
  rectangular g →
  gen_end words = None →
  (∀ w, w ∈ gen_items words → w ≠ "") →
  ∃ ls, Grid.lines set_iter g = Ok ls ∧
        Finder.find_words_in set_iter g words
        = Ok (List.filter
                (λ w, (len w <=? Grid.max_size g)
                      && first_in (Grid.letters g) w
                      && str_in w (str_join "|" ls))
                (gen_items words)).
Proof. apply find_words_in_clean. Qed.

Lemma find_words_in_clean_source_witness :
  rectangular grid_cat ∧
  gen_end (gen_of_list ["cat"; "a|"]) = None ∧
  (∀ w, w ∈ gen_items (gen_of_list ["cat"; "a|"]) → w ≠ "") ∧
  ∃ ls, Grid.lines elements grid_cat = Ok ls ∧
        Finder.find_words_in elements grid_cat (gen_of_list ["cat"; "a|"])
        = Ok (List.filter
                (λ w, (len w <=? Grid.max_size grid_cat)
                      && first_in (Grid.letters grid_cat) w
                      && str_in w (str_join "|" ls))
                (gen_items (gen_of_list ["cat"; "a|"]))).
Proof.
  assert (rectangular grid_cat) as Hrect by rect.
  assert (∀ w, w ∈ gen_items (gen_of_list ["cat"; "a|"]) → w ≠ "") as Hne.
  { intros w Hw. simpl in Hw.
    repeat (apply elem_of_cons in Hw as [->|Hw]; [done|]).
    by apply elem_of_nil in Hw. }
  split; [exact Hrect|]. split; [reflexivity|]. split; [exact Hne|].
  exact (find_words_in_clean_source elements grid_cat
           (gen_of_list ["cat"; "a|"]) Hrect eq_refl Hne).
Defined.

(** ** When the views succeed *)

Section LoopOutcome.
Context {A S : Type}.
Implicit Types (xs : list A) (body : S → A → result S).

Lemma for_Ok_inv xs body s s' :
  for_ xs body s = Ok s' →
  ∀ x, x ∈ xs → ∃ s1 s2, body s1 x = Ok s2.
Proof.
  revert s. induction xs as [|y xs IH]; intros s Hfor x Hx.
  - by apply elem_of_nil in Hx.
  - simpl in Hfor. destruct (body s y) as [s1|e] eqn:Hy; [|done].
    apply elem_of_cons in Hx as [->|Hx]; [by exists s, s1|].
    by apply (IH s1).
Qed.

Lemma for_Raise_inv xs body s e :
  for_ xs body s = Raise e → ∃ s1 x, x ∈ xs ∧ body s1 x = Raise e.
Proof.
  revert s. induction xs as [|y xs IH]; intros s Hfor; [done|].
  simpl in Hfor. destruct (body s y) as [s1|e'] eqn:Hy.
  - destruct (IH s1 Hfor) as (s2 & x & Hx & Hbody).
    exists s2, x. split; [by apply list_elem_of_further|done].
  - injection Hfor as ->. exists s, y. split; [apply list_elem_of_here|done].
Qed.
End LoopOutcome.

Lemma mapM_Ok_inv {A B : Type} (f : A → result B) (l : list A)
    (ys : list B) :
  mapM f l = Ok ys → ∀ x, x ∈ l → ∃ y, f x = Ok y.
Proof.
  revert ys. induction l as [|z l IH]; intros ys Hmap x Hx.
  - by apply elem_of_nil in Hx.
  - simpl in Hmap. destruct (f z) as [y|e] eqn:Hz; [|done].
    apply elem_of_cons in Hx as [->|Hx]; [by exists y|].
    simpl in Hmap. destruct (mapM f l) as [ys'|e]; [|done].
    by apply (IH ys').
Qed.

Lemma mapM_Raise_inv {A B : Type} (f : A → result B) (l : list A)
    (e : exn) :
  mapM f l = Raise e → ∃ x, x ∈ l ∧ f x = Raise e.
Proof.
  induction l as [|z l IH]; intros Hmap; [done|].
  simpl in Hmap. destruct (f z) as [y|e'] eqn:Hz.
  - simpl in Hmap. destruct (mapM f l) as [ys|e'']; [done|].
    injection Hmap as ->. destruct IH as (x & Hx & Hfx); [done|].
    exists x. split; [by apply list_elem_of_further|done].
  - injection Hmap as ->. exists z. split; [apply list_elem_of_here|done].
Qed.

Lemma getitem_Raise {A : Type} (l : list A) (i : Z) (e : exn) :
  getitem l i = Raise e → e = IndexError.
Proof.
  unfold getitem. destruct (_ && _); [|congruence].
  destruct (l !! _); congruence.
Qed.

Lemma getitem_Ok_inv {A : Type} (l : list A) (i : Z) (x : A) :
  0 ≤ i → getitem l i = Ok x → l !! Z.to_nat i = Some x.
Proof.
  intros Hi. unfold getitem. rewrite (proj2 (Z.ltb_ge i 0)) by done.
  destruct (_ && _); [|done]. destruct (l !! _); congruence.
Qed.

Lemma cell_Raise (g : Grid.t) (i j : Z) (e : exn) :
  Grid.cell g i j = Raise e → e = IndexError.
Proof.
  unfold Grid.cell. destruct (getitem (Grid.grid g) i) as [row|e'] eqn:Hrow.
  - apply getitem_Raise.
  - intros [= <-]. by apply getitem_Raise in Hrow.
Qed.

Lemma cell_present (g : Grid.t) (i j : Z) :
  0 ≤ i → 0 ≤ j →
  is_Some (Grid.grid g !! Z.to_nat i ≫= (.!! Z.to_nat j)) ↔
  ∃ x, Grid.cell g i j = Ok x.
Proof.
  intros Hi Hj. unfold Grid.cell. split.
  - intros [x Hx]. exists x.
    destruct (Grid.grid g !! Z.to_nat i) as [row|] eqn:Hrow; [|done].
    rewrite (getitem_Ok _ _ row) by done. by apply getitem_Ok.
  - intros [x Hx].
    destruct (getitem (Grid.grid g) i) as [row|] eqn:Hrow; [|done].
    apply getitem_Ok_inv in Hrow; [|done]. unfold GRID_TYPE. rewrite Hrow.
    apply getitem_Ok_inv in Hx; [|done]. by exists x.
Qed.

Lemma cell_at (g : Grid.t) (i j : Z) (x : ascii) :
  0 ≤ i → 0 ≤ j → Grid.cell g i j = Ok x → x = at_ g i j.
Proof.
  intros Hi Hj. unfold Grid.cell, at_, GRID_TYPE.
  destruct (getitem (Grid.grid g) i) as [row|] eqn:Hrow; [|done].
  apply getitem_Ok_inv in Hrow; [|done]. rewrite Hrow.
  intros Hx%getitem_Ok_inv; [|done]. simpl. by rewrite Hx.
Qed.

Lemma vertical_lines_block (g : Grid.t) :
  block_present g → Grid.vertical_lines g = Ok (columns_both_ways g).
Proof.
  intros Hblock. unfold Grid.vertical_lines, columns_both_ways.
  rewrite (for_foldl _ _
             (λ columns c, (columns ++ [column g c])
                           ++ [reversed (column g c)])).
  - by rewrite foldl_snoc2.
  - intros columns c Hc%elem_of_range.
    rewrite (mapM_Ok _ (λ r, at_ g r c)); [done|].
    intros r Hr%elem_of_range.
    destruct (proj1 (cell_present g r c ltac:(lia) ltac:(lia)))
      as [x Hx]; [apply Hblock; lia|].
    rewrite Hx. f_equal. apply (cell_at g r c); [lia..|done].
Qed.

Lemma vertical_lines_Ok_block (g : Grid.t) :
  (∃ V, Grid.vertical_lines g = Ok V) → block_present g.
Proof.
  intros [V HV] r c Hr Hc. unfold Grid.vertical_lines in HV.
  destruct (for_Ok_inv _ _ _ _ HV c) as (columns & columns' & Hbody).
  { apply elem_of_range. lia. }
  destruct (mapM _ _) as [letters|e] eqn:Hmap; [|done].
  destruct (mapM_Ok_inv _ _ _ Hmap r) as [x Hx].
  { apply elem_of_range. lia. }
  apply cell_present; [lia..|by exists x].
Qed.

Lemma vertical_lines_Raise (g : Grid.t) (e : exn) :
  Grid.vertical_lines g = Raise e → e = IndexError.
Proof.
  intros (columns & c & Hc & Hbody)%for_Raise_inv.
  destruct (mapM _ _) as [letters|e'] eqn:Hmap; [done|].
  injection Hbody as ->.
  apply mapM_Raise_inv in Hmap as (r & _ & Hcell).
  by apply cell_Raise in Hcell.
Qed.

(** X9. [vertical_lines] succeeds exactly when every cell of the declared
    [depth] x [length] block exists (rows or cells beyond the block are
    never read), and the only exception it raises is [IndexError]. *)
Theorem vertical_lines_needs_block (g : Grid.t) :
  (block_present g ↔ ∃ V, Grid.vertical_lines g = Ok V) ∧
  (∀ e, Grid.vertical_lines g = Raise e → e = IndexError).
Proof.
  split; [split|].
  - intros Hblock. eexists. by apply vertical_lines_block.
  - apply vertical_lines_Ok_block.
  - apply vertical_lines_Raise.
Qed.

Lemma diagonal_step_Raise (g : Grid.t) (offset i : Z)
    (acc : list ascii * list ascii) (e : exn) :
  Grid.diagonal_step g offset acc i = Raise e → e = IndexError.
Proof.
  unfold Grid.diagonal_step. destruct acc as [L R].
  destruct (i =? 0).
  - destruct (Grid.cell g i (i + offset)) as [x|e'] eqn:Hcell; [done|].
    intros [= <-]. by apply cell_Raise in Hcell.
  - destruct (i + offset <? Grid.length g);
      destruct ((i + offset - 2 <? Grid.length g) && (0 <=? i + offset - 2));
      repeat match goal with
             | |- context [Grid.cell g ?a ?b] =>
                 let H := fresh "Hcell" in
                 destruct (Grid.cell g a b) eqn:H;
                 [|apply cell_Raise in H]
             end;
      cbn [mbind result_bind]; congruence.
Qed.

Lemma diagonal_lines_Raise (g : Grid.t) (e : exn) :
  Grid.diagonal_lines g = Raise e → e = IndexError.
Proof.
  unfold Grid.diagonal_lines.
  destruct (for_ _ _ _) as [st|e'] eqn:Hfor; [done|].
  intros [= <-].
  apply for_Raise_inv in Hfor as ([D o] & x & _ & Hbody).
  destruct (for_ _ (Grid.diagonal_step g o) _) as [[L R]|e''] eqn:Hwalk;
    [done|].
  injection Hbody as ->.
  apply for_Raise_inv in Hwalk as (acc & i & _ & Hstep).
  by apply diagonal_step_Raise in Hstep.
Qed.

(** X10. Whatever the grid, the only exception that [lines] (and so each
    of the three views it is made of) raises is [IndexError]. *)
Theorem lines_raise_only_IndexError
    (set_iter : gset string → list string) (g : Grid.t) (e : exn) :
  Grid.lines set_iter g = Raise e → e = IndexError.
Proof.
  unfold Grid.lines.
  destruct (Grid.vertical_lines g) as [V|e'] eqn:HV.
  - destruct (Grid.diagonal_lines g) as [D|e'] eqn:HD; [done|].
    intros [= <-]. by apply diagonal_lines_Raise in HD.
  - intros [= <-]. by apply vertical_lines_Raise in HV.
Qed.

Lemma lines_raise_only_IndexError_witness :
  Grid.lines elements grid_ragged = Raise IndexError ∧
  IndexError = IndexError.
Proof.
  assert (Grid.lines elements grid_ragged = Raise IndexError) as H
    by reflexivity.
  split; [exact H|].
  exact (lines_raise_only_IndexError elements grid_ragged IndexError H).
Defined.

(** ** Columns, diagonals and letters *)

Lemma bind_singletons {A B : Type} (f : A → list B) (h : A → B)
    (l : list A) :
  (∀ x, x ∈ l → f x = [h x]) → l ≫= f = h <$> l.
Proof.
  induction l as [|x l IH]; intros Hf; [done|].
  rewrite bind_cons, Hf by apply list_elem_of_here.
  rewrite IH; [done|]. intros y Hy. by apply Hf, list_elem_of_further.
Qed.

Lemma bind_nils {A B : Type} (f : A → list B) (l : list A) :
  (∀ x, x ∈ l → f x = []) → l ≫= f = [].
Proof.
  induction l as [|x l IH]; intros Hf; [done|].
  rewrite bind_cons, Hf by apply list_elem_of_here.
  apply IH. intros y Hy. by apply Hf, list_elem_of_further.
Qed.

Lemma range_split (a b c : Z) :
  a ≤ b ≤ c → range a c = range a b ++ range b c.
Proof.
  intros H. unfold range.
  replace (c - a) with ((b - a) + (c - b)) by lia.
  rewrite seqZ_app by lia. do 2 f_equal. lia.
Qed.

Lemma lookup_range (n : Z) (c : Z) :
  0 ≤ c < n → range 0 n !! Z.to_nat c = Some c.
Proof.
  intros Hc. unfold range. rewrite lookup_seqZ_lt by lia. f_equal. lia.
Qed.

(** The right accumulator of an offset is the down-right diagonal from the
    top row. *)
Lemma right_accumulator_down_right (g : Grid.t) (offset : Z) :
  0 < Grid.depth g → 0 ≤ offset < Grid.length g →
  Spec.right_accumulator g offset = down_right g offset.
Proof.
  intros Hd Ho. unfold Spec.right_accumulator, down_right. f_equal.
  set (t := Z.min (Grid.depth g) (Grid.length g - offset)).
  rewrite (range_split 0 t (Grid.depth g)) by lia.
  rewrite bind_app.
  rewrite (bind_singletons _ (λ i, at_ g i (i + offset))).
  - rewrite bind_nils; [by rewrite app_nil_r|].
    intros i Hi%elem_of_range. unfold Spec.right_cells.
    rewrite decide_False by lia. by rewrite decide_False by lia.
  - intros i Hi%elem_of_range. unfold Spec.right_cells.
    destruct (decide (i = 0)) as [->|Hne]; [done|].
    by rewrite decide_True by lia.
Qed.

(** X11. On a rectangular grid every column gives two vertical lines:
    [vertical_lines] has [2 * length] entries, entry [2c] is column [c]
    read top to bottom, [depth] characters long, and entry [2c+1] is its
    reverse. *)
Theorem vertical_lines_pairs (g : Grid.t) :
  rectangular g →
  ∃ V, Grid.vertical_lines g = Ok V ∧
       length V = (2 * Z.to_nat (Grid.length g))%nat ∧
       ∀ c, 0 ≤ c < Grid.length g →
            V !! (2 * Z.to_nat c)%nat = Some (column g c) ∧
            V !! (2 * Z.to_nat c + 1)%nat = Some (reversed (column g c)) ∧
            len (column g c) = Grid.depth g ∧
            ∀ r, 0 ≤ r < Grid.depth g →
                 Grid.cell g r c = Ok (at_ g r c) ∧
                 list_ascii_of_string (column g c) !! Z.to_nat r
                 = Some (at_ g r c).
Proof.
  intros Hrect. exists (columns_both_ways g).
  split; [by apply vertical_lines_closed|]. unfold columns_both_ways.
  split; [by rewrite length_pairs, length_range, Z.sub_0_r|].
  intros c Hc.
  destruct (lookup_pairs (column g) (λ c, reversed (column g c))
              (range 0 (Grid.length g)) (Z.to_nat c) c) as [H0 H1];
    [by apply lookup_range|].
  split; [done|]. split; [done|].
  pose proof (depth_nonneg g Hrect). unfold column. split.
  - rewrite len_join, length_fmap, length_range. lia.
  - intros r Hr. split; [by apply cell_Ok|].
    rewrite chars_join, list_lookup_fmap, lookup_range by done. done.
Qed.

Lemma vertical_lines_pairs_witness :
  rectangular grid_abcd ∧
  ∃ V, Grid.vertical_lines grid_abcd = Ok V ∧
       length V = (2 * Z.to_nat (Grid.length grid_abcd))%nat ∧
       ∀ c, 0 ≤ c < Grid.length grid_abcd →
            V !! (2 * Z.to_nat c)%nat = Some (column grid_abcd c) ∧
            V !! (2 * Z.to_nat c + 1)%nat
            = Some (reversed (column grid_abcd c)) ∧
            len (column grid_abcd c) = Grid.depth grid_abcd ∧
            ∀ r, 0 ≤ r < Grid.depth grid_abcd →
                 Grid.cell grid_abcd r c = Ok (at_ grid_abcd r c) ∧
                 list_ascii_of_string (column grid_abcd c) !! Z.to_nat r
                 = Some (at_ grid_abcd r c).
Proof.
  assert (rectangular grid_abcd) as H by rect.
  split; [exact H | exact (vertical_lines_pairs grid_abcd H)].
Defined.

(** X12. On a rectangular grid with at least one row, every down-right
    diagonal that starts in the top row is among [diagonal_lines], and so
    is its reverse: for each column [offset] the string of the cells
    [grid[i][i + offset]], [i] from 0 up to the last row or the last
    column. *)
Theorem top_row_diagonals_found (g : Grid.t) (offset : Z) :
  rectangular g →
  0 < Grid.depth g →
  0 ≤ offset < Grid.length g →
  ∃ D, Grid.diagonal_lines g = Ok D ∧
       down_right g offset ∈ D ∧
       reversed (down_right g offset) ∈ D ∧
       len (down_right g offset)
       = Z.min (Grid.depth g) (Grid.length g - offset) ∧
       ∀ i, 0 ≤ i < Z.min (Grid.depth g) (Grid.length g - offset) →
            Grid.cell g i (i + offset) = Ok (at_ g i (i + offset)) ∧
            list_ascii_of_string (down_right g offset) !! Z.to_nat i
            = Some (at_ g i (i + offset)).
Proof.
  intros Hrect Hd Ho. exists (Spec.diagonal_lines g).
  split; [by apply diagonal_lines_spec|].
  assert (len (down_right g offset)
          = Z.min (Grid.depth g) (Grid.length g - offset)) as Hlen.
  { unfold down_right. rewrite len_join, length_fmap, length_range. lia. }
  assert (down_right g offset ∈ Spec.diagonal_lines g) as Hin.
  { unfold Spec.diagonal_lines. apply elem_of_union_list.
    eexists. split.
    - apply list_elem_of_fmap. exists offset.
      split; [done|]. apply elem_of_range. lia.
    - apply elem_of_union. left.
      rewrite right_accumulator_down_right by done.
      unfold Spec.both_ways. rewrite decide_False.
      + apply elem_of_union. left. by apply elem_of_singleton.
      + intros Heq. rewrite Heq in Hlen. unfold len in Hlen.
        simpl in Hlen. lia. }
  split; [done|]. split; [by apply diagonal_spec_reversed|].
  split; [done|]. intros i Hi. split; [apply cell_Ok; [done|lia..]|].
  unfold down_right.
  rewrite chars_join, list_lookup_fmap, lookup_range by done. done.
Qed.

Lemma top_row_diagonals_found_witness :
  rectangular grid_abcd ∧
  0 < Grid.depth grid_abcd ∧
  0 ≤ 0 < Grid.length grid_abcd ∧
  ∃ D, Grid.diagonal_lines grid_abcd = Ok D ∧
       down_right grid_abcd 0 ∈ D ∧
       reversed (down_right grid_abcd 0) ∈ D ∧
       len (down_right grid_abcd 0)
       = Z.min (Grid.depth grid_abcd) (Grid.length grid_abcd - 0) ∧
       ∀ i, 0 ≤ i < Z.min (Grid.depth grid_abcd)
                          (Grid.length grid_abcd - 0) →
            Grid.cell grid_abcd i (i + 0) = Ok (at_ grid_abcd i (i + 0)) ∧
            list_ascii_of_string (down_right grid_abcd 0) !! Z.to_nat i
            = Some (at_ grid_abcd i (i + 0)).
Proof.
  assert (rectangular grid_abcd) as H by rect.
  assert (0 < Grid.depth grid_abcd) as Hd by reflexivity.
  assert (0 ≤ 0 < Grid.length grid_abcd) as Ho by (split; [done|reflexivity]).
  split; [exact H|]. split; [exact Hd|]. split; [exact Ho|].
  exact (top_row_diagonals_found grid_abcd 0 H Hd Ho).
Defined.

(** X13. On a rectangular grid [letters] is exactly the set of the
    characters that occur in [lines]: every character of a line is a letter
    of the grid (the first-letter filter drops no word that occurs in a
    line), and every letter occurs in some line. *)
Theorem letters_are_line_characters
    (set_iter : gset string → list string) (g : Grid.t) :
  (∀ X, set_iter X ≡ₚ elements X) →
  rectangular g →
  ∃ ls, Grid.lines set_iter g = Ok ls ∧
        ∀ c, c ∈ Grid.letters g ↔
             ∃ l, l ∈ ls ∧ c ∈ list_ascii_of_string l.
Proof.
  intros Hperm Hrect. eexists. split; [by apply lines_closed|].
  intros c. split.
  - unfold Grid.letters. rewrite elem_of_list_to_set, list_elem_of_In.
    intros (row & Hrow & Hc)%in_concat.
    apply list_elem_of_In in Hrow, Hc.
    exists (join row). split; [|by rewrite chars_join].
    apply elem_of_app. right. apply elem_of_app. left.
    apply list_elem_of_bind. exists row. split; [apply list_elem_of_here|done].
  - intros (l & Hl & Hc).
    by apply (fits_lines g Hrect set_iter Hperm l Hl).
Qed.

Lemma letters_are_line_characters_witness :
  (∀ X : gset string, elements X ≡ₚ elements X) ∧
  rectangular grid_abcd ∧
  ∃ ls, Grid.lines elements grid_abcd = Ok ls ∧
        ∀ c, c ∈ Grid.letters grid_abcd ↔
             ∃ l, l ∈ ls ∧ c ∈ list_ascii_of_string l.
Proof.
  assert (∀ X : gset string, elements X ≡ₚ elements X) as Hperm
    by (intros X; reflexivity).
  assert (rectangular grid_abcd) as H by rect.
  split; [exact Hperm|]. split; [exact H|].
  exact (letters_are_line_characters elements grid_abcd Hperm H).
Defined.

(** ** The iterator protocol and the caches *)

Lemma set_number_twice (a b : Z) (self : GridObj.t) :
  GridObj.set_number a (GridObj.set_number b self) = GridObj.set_number a self.
Proof. reflexivity. Qed.

Lemma collect_from_cursor (fuel : nat) (self : GridObj.t) :
  0 ≤ GridObj._number self ≤ GridObj.__len__ self →
  (GridObj.__len__ self - GridObj._number self < Z.of_nat fuel) →
  GridObj.collect fuel self
  = Some (Ok (drop (Z.to_nat (GridObj._number self))
                (Grid.grid (GridObj.public self))),
          GridObj.set_number 0 self).
Proof.
  revert self. induction fuel as [|fuel IH]; intros self Hn Hfuel.
  { unfold GridObj.__len__ in *. lia. }
  unfold GridObj.__len__ in *.
  cbn [GridObj.collect]. unfold GridObj.__iter__, GridObj.__next__.
  destruct (Z.leb_spec (Z.of_nat (length (Grid.grid (GridObj.public self))))
              (GridObj._number self)) as [Hend|Hmore].
  - by rewrite drop_ge by lia.
  - destruct (lookup_lt_is_Some_2 (Grid.grid (GridObj.public self))
                (Z.to_nat (GridObj._number self))) as [row Hrow]; [lia|].
    rewrite (getitem_Ok _ _ row) by (done || lia).
    rewrite IH; cbn [GridObj.set_number GridObj._number GridObj.public];
      [|lia..].
    rewrite (drop_S _ _ _ Hrow).
    replace (Z.to_nat (GridObj._number self + 1))
      with (S (Z.to_nat (GridObj._number self))) by lia.
    done.
Qed.

(** X14. A [for] loop over a Grid whose cursor stands at row [n] yields
    the rows from [n] on, in order, and leaves the cursor at 0 (the bound
    only has to exceed the number of rows left). A new Grid yields all its
    rows and is then as it was, so it can be iterated again. *)
Theorem iteration_yields_rows (fuel : nat) (self : GridObj.t) :
  0 ≤ GridObj._number self ≤ GridObj.__len__ self →
  GridObj.__len__ self - GridObj._number self < Z.of_nat fuel →
  GridObj.collect fuel self
  = Some (Ok (drop (Z.to_nat (GridObj._number self))
                (Grid.grid (GridObj.public self))),
          GridObj.set_number 0 self) ∧
  (GridObj._number self = 0 →
   GridObj.collect fuel self
   = Some (Ok (Grid.grid (GridObj.public self)), self)).
Proof.
  intros Hn Hfuel. split; [by apply collect_from_cursor|].
  intros H0. rewrite collect_from_cursor by done.
  rewrite H0. destruct self as [g L ls n]. simpl in H0. by subst n.
Qed.

Lemma iteration_yields_rows_witness :
  0 ≤ GridObj._number obj_abcd ≤ GridObj.__len__ obj_abcd ∧
  GridObj.__len__ obj_abcd - GridObj._number obj_abcd < Z.of_nat 3 ∧
  GridObj.collect 3 obj_abcd
  = Some (Ok (drop (Z.to_nat (GridObj._number obj_abcd))
                (Grid.grid (GridObj.public obj_abcd))),
          GridObj.set_number 0 obj_abcd) ∧
  (GridObj._number obj_abcd = 0 →
   GridObj.collect 3 obj_abcd
   = Some (Ok (Grid.grid (GridObj.public obj_abcd)), obj_abcd)).
Proof.
  assert (0 ≤ GridObj._number obj_abcd ≤ GridObj.__len__ obj_abcd) as Hn
    by (vm_compute; split; discriminate).
  assert (GridObj.__len__ obj_abcd - GridObj._number obj_abcd < Z.of_nat 3)
    as Hfuel by reflexivity.
  split; [exact Hn|]. split; [exact Hfuel|].
  exact (iteration_yields_rows 3 obj_abcd Hn Hfuel).
Defined.

(** X15. A loop over a Grid nested in a loop over the same Grid makes the
    outer loop start over: after the first row of a new, non-empty Grid
    has been taken, a complete inner loop yields the remaining rows and
    puts the Grid back into its initial state, so that the next step of
    the outer loop takes the first row again. *)
Theorem nested_iteration_starts_over (fuel : nat) (self : GridObj.t) :
  GridObj._number self = 0 →
  Grid.grid (GridObj.public self) ≠ [] →
  GridObj.__len__ self ≤ Z.of_nat fuel →
  ∃ row rows self1 self2,
    Grid.grid (GridObj.public self) = row :: rows ∧
    GridObj.__next__ self = (GridObj.Item row, self1) ∧
    GridObj.collect fuel self1 = Some (Ok rows, self2) ∧
    self2 = self ∧
    GridObj.__next__ self2 = (GridObj.Item row, self1).
Proof.
  intros H0 Hne Hfuel.
  destruct (Grid.grid (GridObj.public self)) as [|row rows] eqn:Hrows;
    [done|].
  exists row, rows, (GridObj.set_number 1 self), self.
  assert (GridObj.__next__ self
          = (GridObj.Item row, GridObj.set_number 1 self)) as Hnext.
  { unfold GridObj.__next__. rewrite H0, Hrows. done. }
  split; [done|]. split; [done|]. split; [|done].
  rewrite collect_from_cursor;
    unfold GridObj.__len__ in *;
    cbn [GridObj.set_number GridObj._number GridObj.public];
    rewrite ?Hrows in *; simpl length in *; [|lia..].
  rewrite set_number_twice. simpl drop.
  destruct self as [g L ls n]. simpl in H0. by subst n.
Qed.

Lemma nested_iteration_starts_over_witness :
  GridObj._number obj_abcd = 0 ∧
  Grid.grid (GridObj.public obj_abcd) ≠ [] ∧
  GridObj.__len__ obj_abcd ≤ Z.of_nat 2 ∧
  ∃ row rows self1 self2,
    Grid.grid (GridObj.public obj_abcd) = row :: rows ∧
    GridObj.__next__ obj_abcd = (GridObj.Item row, self1) ∧
    GridObj.collect 2 self1 = Some (Ok rows, self2) ∧
    self2 = obj_abcd ∧
    GridObj.__next__ self2 = (GridObj.Item row, self1).
Proof.
  assert (Grid.grid (GridObj.public obj_abcd) ≠ []) as Hne by discriminate.
  assert (GridObj.__len__ obj_abcd ≤ Z.of_nat 2) as Hfuel
    by (vm_compute; discriminate).
  split; [reflexivity|]. split; [exact Hne|]. split; [exact Hfuel|].
  exact (nested_iteration_starts_over 2 obj_abcd eq_refl Hne Hfuel).
Defined.

Lemma lines_empty_any_order (set_iter set_iter' : gset string → list string)
    (g : Grid.t) :
  (∀ X, set_iter X ≡ₚ elements X) →
  (∀ X, set_iter' X ≡ₚ elements X) →
  Grid.lines set_iter g = Ok [] → Grid.lines set_iter' g = Ok [].
Proof.
  intros Hperm Hperm'. unfold Grid.lines.
  destruct (Grid.vertical_lines g) as [V|]; [|done].
  destruct (Grid.diagonal_lines g) as [D|]; [|done].
  cbn [mbind result_bind]. intros [= Hnil].
  apply app_eq_nil in Hnil as [-> Hnil].
  apply app_eq_nil in Hnil as [-> Hnil].
  assert (set_iter' D = []) as ->; [|done].
  apply Permutation_nil_r. rewrite Hperm', <- Hperm, Hnil. done.
Qed.

(** X16. The caches: once [lines] has returned a list, reading it again
    returns the same list and leaves the Grid as it is, whatever the order
    in which the set of diagonals would be iterated the second time; and
    reading [letters] a second time returns what the first reading
    returned. *)
Theorem lines_memoised (set_iter set_iter' : gset string → list string)
    (self self' : GridObj.t) (ls : list string) :
  (∀ X, set_iter X ≡ₚ elements X) →
  (∀ X, set_iter' X ≡ₚ elements X) →
  GridObj.lines set_iter self = Ok (ls, self') →
  GridObj.lines set_iter' self' = Ok (ls, self') ∧
  GridObj.letters (GridObj.letters self).2 = GridObj.letters self.
Proof.
  intros Hperm Hperm' Hfirst. split.
  - assert (∀ v, Grid.lines set_iter (GridObj.public self) = Ok v →
                 GridObj.lines set_iter' (GridObj.set_lines (Some v) self)
                 = Ok (v, GridObj.set_lines (Some v) self)) as Hfresh.
    { intros v Hv. unfold GridObj.lines at 1.
      cbn [GridObj.set_lines GridObj._lines GridObj.public].
      destruct (decide (v = [])) as [->|Hne]; [|done].
      by rewrite (lines_empty_any_order set_iter set_iter' _ Hperm Hperm' Hv). }
    unfold GridObj.lines in Hfirst.
    destruct (GridObj._lines self) as [cached|] eqn:Hcache.
    + destruct (decide (cached = [])) as [->|Hne].
      * destruct (Grid.lines set_iter (GridObj.public self)) as [v|] eqn:Hv;
          [|done].
        injection Hfirst as <- <-. by apply Hfresh.
      * injection Hfirst as <- <-. unfold GridObj.lines.
        rewrite Hcache. by rewrite decide_False.
    + destruct (Grid.lines set_iter (GridObj.public self)) as [v|] eqn:Hv;
        [|done].
      injection Hfirst as <- <-. by apply Hfresh.
  - unfold GridObj.letters.
    destruct (GridObj._letters self) as [cached|] eqn:Hcache.
    + destruct (decide (cached = ∅)) as [->|Hne].
      * cbn [snd GridObj.set_letters GridObj._letters GridObj.public].
        by destruct (decide (Grid.letters (GridObj.public self) = ∅)).
      * cbn [snd]. rewrite Hcache. by rewrite decide_False.
    + cbn [snd GridObj.set_letters GridObj._letters GridObj.public].
      by destruct (decide (Grid.letters (GridObj.public self) = ∅)).
Qed.

Lemma lines_memoised_witness :
  (∀ X : gset string, elements X ≡ₚ elements X) ∧
  (∀ X : gset string, elements X ≡ₚ elements X) ∧
  GridObj.lines elements obj_abcd
  = Ok (lines_abcd, GridObj.set_lines (Some lines_abcd) obj_abcd) ∧
  GridObj.lines elements (GridObj.set_lines (Some lines_abcd) obj_abcd)
  = Ok (lines_abcd, GridObj.set_lines (Some lines_abcd) obj_abcd) ∧
  GridObj.letters (GridObj.letters obj_abcd).2 = GridObj.letters obj_abcd.
Proof.
  assert (∀ X : gset string, elements X ≡ₚ elements X) as Hperm
    by (intros X; reflexivity).
  assert (GridObj.lines elements obj_abcd
          = Ok (lines_abcd, GridObj.set_lines (Some lines_abcd) obj_abcd))
    as H by (vm_compute; reflexivity).
  split; [exact Hperm|]. split; [exact Hperm|]. split; [exact H|].
  exact (lines_memoised elements elements obj_abcd _ lines_abcd
           Hperm Hperm H).
Defined.

(** ** The grid maker *)

Lemma lowercase_at_lookup (d : nat) :
  list_ascii_of_string ascii_lowercase !! (d mod 26)%nat
  = Some (lowercase_at d).
Proof.
  unfold lowercase_at.
  destruct (lookup_lt_is_Some_2 (list_ascii_of_string ascii_lowercase)
              (d mod 26)%nat) as [c Hc].
  - change (length (list_ascii_of_string ascii_lowercase)) with 26%nat.
    apply Nat.mod_upper_bound. done.
  - by rewrite Hc.
Qed.

Lemma choice_lowercase (draws : nat → nat) (k : nat) :
  choice draws k ascii_lowercase = Ok (lowercase_at (draws k)).
Proof.
  unfold choice, str_getitem. change (len ascii_lowercase) with (Z.of_nat 26).
  rewrite <- Nat2Z.inj_mod. apply getitem_Ok; [lia|].
  rewrite Nat2Z.id. apply lowercase_at_lookup.
Qed.

Lemma lowercase_at_elem (d : nat) :
  lowercase_at d ∈ list_ascii_of_string ascii_lowercase.
Proof. eapply list_elem_of_lookup_2, lowercase_at_lookup. Qed.

Lemma random_row_loop {X : Type} (draws : nat → nat) (xs : list X)
    (row : list ascii) (k : nat) :
  for_ xs
    (λ '(row, k) _,
       c ← choice draws k ascii_lowercase;
       Ok (row ++ [c], S k))
    (row, k)
  = Ok (row ++ row_of draws k (length xs), (k + length xs)%nat).
Proof.
  revert row k. induction xs as [|x xs IH]; intros row k.
  - simpl. by rewrite app_nil_r, Nat.add_0_r.
  - cbn [for_]. rewrite choice_lowercase. cbn [mbind result_bind].
    rewrite IH, <- app_assoc. unfold row_of. simpl length.
    rewrite <- Nat.add_succ_comm. do 2 f_equal.
    cbn [seq fmap list_fmap app]. rewrite Nat.add_0_r. f_equal.
    rewrite <- fmap_S_seq, <- list_fmap_compose.
    f_equal. apply list_fmap_ext. intros _ j _. simpl.
    do 2 f_equal. lia.
Qed.

Lemma random_row_Ok (self : GridMaker.t) (draws : nat → nat) (k : nat) :
  GridMaker._random_row self draws k
  = Ok (row_of draws k (Z.to_nat (GridMaker.length self)),
        (k + Z.to_nat (GridMaker.length self))%nat).
Proof.
  unfold GridMaker._random_row.
  by rewrite random_row_loop, length_range, Z.sub_0_r.
Qed.

Lemma generate_loop {X : Type} (self : GridMaker.t) (draws : nat → nat)
    (xs : list X) (rows : list (list ascii)) (k : nat) :
  for_ xs
    (λ '(result, k) _,
       '(row, k) ← GridMaker._random_row self draws k;
       Ok (result ++ [row], k))
    (rows, k)
  = Ok (rows ++ ((λ i, row_of draws
                         (k + i * Z.to_nat (GridMaker.length self))
                         (Z.to_nat (GridMaker.length self)))
                 <$> seq 0 (length xs)),
        (k + length xs * Z.to_nat (GridMaker.length self))%nat).
Proof.
  revert rows k. induction xs as [|x xs IH]; intros rows k.
  - simpl. by rewrite app_nil_r, Nat.add_0_r.
  - cbn [for_]. rewrite random_row_Ok. cbn [mbind result_bind].
    rewrite IH, <- app_assoc. simpl length. f_equal. f_equal.
    + f_equal. cbn [seq fmap list_fmap app].
      rewrite Nat.mul_0_l, Nat.add_0_r. f_equal.
      rewrite <- fmap_S_seq, <- list_fmap_compose.
      apply list_fmap_ext. intros _ i _. simpl. f_equal. lia.
    + lia.
Qed.

(** The grid that [generate] builds from the draws [k], [k+1], ... *)
Lemma generate_Ok (self : GridMaker.t) (draws : nat → nat) (k : nat) :
  GridMaker.generate self draws k
  = Ok ({| Grid.grid :=
             (λ i, row_of draws
                     (k + i * Z.to_nat (GridMaker.length self))
                     (Z.to_nat (GridMaker.length self)))
             <$> seq 0 (Z.to_nat (GridMaker.depth self));
           Grid.length := GridMaker.length self;
           Grid.depth := GridMaker.depth self |},
        (k + Z.to_nat (GridMaker.depth self)
             * Z.to_nat (GridMaker.length self))%nat).
Proof.
  unfold GridMaker.generate.
  rewrite generate_loop, length_range, Z.sub_0_r. done.
Qed.

Lemma generate_rectangular (self : GridMaker.t) (draws : nat → nat)
    (k : nat) (g : Grid.t) (k' : nat) :
  0 ≤ GridMaker.length self → 0 ≤ GridMaker.depth self →
  GridMaker.generate self draws k = Ok (g, k') → rectangular g.
Proof.
  intros Hl Hd. rewrite generate_Ok. intros [= <- _]. split; simpl.
  - rewrite length_fmap, length_seq. lia.
  - apply Forall_fmap, Forall_forall. intros i _. simpl.
    unfold row_of. rewrite length_fmap, length_seq. lia.
Qed.

(** X17. With a width and a height that are not negative, [generate]
    returns a rectangular Grid of that width and height whose letters are
    all lower-case; it takes one draw of the random source per cell, row
    by row, and cell [(i, j)] is the letter picked by draw number
    [i * width + j]. *)
Theorem generate_rectangular_lowercase (self : GridMaker.t)
    (draws : nat → nat) (k : nat) :
  0 ≤ GridMaker.length self →
  0 ≤ GridMaker.depth self →
  ∃ g, GridMaker.generate self draws k
       = Ok (g, (k + Z.to_nat (GridMaker.depth self)
                     * Z.to_nat (GridMaker.length self))%nat) ∧
       rectangular g ∧
       Grid.length g = GridMaker.length self ∧
       Grid.depth g = GridMaker.depth self ∧
       (∀ c, c ∈ Grid.letters g →
             c ∈ list_ascii_of_string ascii_lowercase) ∧
       ∀ i j : nat,
         Z.of_nat i < GridMaker.depth self →
         Z.of_nat j < GridMaker.length self →
         Grid.cell g (Z.of_nat i) (Z.of_nat j)
         = Ok (lowercase_at
                 (draws (k + i * Z.to_nat (GridMaker.length self) + j)%nat)).
Proof.
  intros Hl Hd. eexists. split; [apply generate_Ok|].
  split; [by eapply generate_rectangular, generate_Ok|].
  split; [done|]. split; [done|]. split.
  - intros c. unfold Grid.letters. cbn [Grid.grid].
    rewrite elem_of_list_to_set, list_elem_of_In.
    intros (row & Hrow & Hc)%in_concat.
    apply list_elem_of_In in Hrow, Hc.
    apply list_elem_of_fmap in Hrow as (i & -> & _).
    apply list_elem_of_fmap in Hc as (j & -> & _).
    apply lowercase_at_elem.
  - intros i j Hi Hj. unfold Grid.cell. cbn [Grid.grid].
    rewrite (getitem_Ok _ _
               (row_of draws (k + i * Z.to_nat (GridMaker.length self))
                  (Z.to_nat (GridMaker.length self)))); [|lia|].
    + cbn [mbind result_bind]. apply getitem_Ok; [lia|].
      unfold row_of. rewrite Nat2Z.id, list_lookup_fmap, lookup_seq_lt by lia.
      done.
    + rewrite Nat2Z.id, list_lookup_fmap, lookup_seq_lt by lia. done.
Qed.

Lemma generate_rectangular_lowercase_witness :
  0 ≤ GridMaker.length {| GridMaker.length := 3; GridMaker.depth := 2 |} ∧
  0 ≤ GridMaker.depth {| GridMaker.length := 3; GridMaker.depth := 2 |} ∧
  ∃ g, GridMaker.generate {| GridMaker.length := 3; GridMaker.depth := 2 |}
         (λ n, 7 * n + 2)%nat 0
       = Ok (g, (0 + Z.to_nat 2 * Z.to_nat 3)%nat) ∧
       rectangular g ∧
       Grid.length g = 3 ∧
       Grid.depth g = 2 ∧
       (∀ c, c ∈ Grid.letters g →
             c ∈ list_ascii_of_string ascii_lowercase) ∧
       ∀ i j : nat,
         Z.of_nat i < 2 →
         Z.of_nat j < 3 →
         Grid.cell g (Z.of_nat i) (Z.of_nat j)
         = Ok (lowercase_at
                 ((λ n, 7 * n + 2)%nat (0 + i * Z.to_nat 3 + j)%nat)).
Proof.
  assert (0 ≤ 3) as Hl by done. assert (0 ≤ 2) as Hd by done.
  split; [exact Hl|]. split; [exact Hd|].
  exact (generate_rectangular_lowercase
           {| GridMaker.length := 3; GridMaker.depth := 2 |}
           (λ n, 7 * n + 2)%nat 0 Hl Hd).
Defined.

(** X18. A generated grid can always be searched: with a width and a
    height that are not negative and a source that yields non-empty words
    and stops, [find_words] on the grid that [generate] returns never
    fails. *)
Theorem generate_then_find_words
    (set_iter : gset string → list string) (self : GridMaker.t)
    (draws : nat → nat) (k : nat) (words : gen string) :
  0 ≤ GridMaker.length self →
  0 ≤ GridMaker.depth self →
  gen_end words = None →
  (∀ w, w ∈ gen_items words → w ≠ "") →
  ∃ g k' found,
    GridMaker.generate self draws k = Ok (g, k') ∧
    Finder.find_words_in set_iter g words = Ok found.
Proof.
  intros Hl Hd Hend Hne.
  destruct (GridMaker.generate self draws k) as [[g k']|e] eqn:Hgen;
    [|by rewrite generate_Ok in Hgen].
  assert (rectangular g) as Hrect by by eapply generate_rectangular.
  destruct (find_words_in_clean set_iter g words Hrect Hend Hne)
    as (ls & _ & Hfound).
  by eexists g, k', _.
Qed.

Lemma generate_then_find_words_witness :
  0 ≤ GridMaker.length {| GridMaker.length := 3; GridMaker.depth := 2 |} ∧
  0 ≤ GridMaker.depth {| GridMaker.length := 3; GridMaker.depth := 2 |} ∧
  gen_end (gen_of_list ["cat"; "jq"]) = None ∧
  (∀ w, w ∈ gen_items (gen_of_list ["cat"; "jq"]) → w ≠ "") ∧
  ∃ g k' found,
    GridMaker.generate {| GridMaker.length := 3; GridMaker.depth := 2 |}
      (λ n, 7 * n + 2)%nat 0 = Ok (g, k') ∧
    Finder.find_words_in elements g (gen_of_list ["cat"; "jq"]) = Ok found.
Proof.
  assert (0 ≤ 3) as Hl by done. assert (0 ≤ 2) as Hd by done.
  assert (∀ w, w ∈ gen_items (gen_of_list ["cat"; "jq"]) → w ≠ "") as Hne.
  { intros w Hw. simpl in Hw.
    repeat (apply elem_of_cons in Hw as [->|Hw]; [done|]).
    by apply elem_of_nil in Hw. }
  split; [exact Hl|]. split; [exact Hd|]. split; [reflexivity|].
  split; [exact Hne|].
  exact (generate_then_find_words elements
           {| GridMaker.length := 3; GridMaker.depth := 2 |}
           (λ n, 7 * n + 2)%nat 0 (gen_of_list ["cat"; "jq"])
           Hl Hd eq_refl Hne).
Defined.

(** ** The table *)

Section UniformJoin.
Variables (sep : string) (w : nat).


End UniformJoin.



(** ** The search and the shape of the grid *)

(** X20. When a cell of the declared block is missing and
    [max_size >= 1], [find_words] fails with [IndexError] whatever the
    word file: the lines are built before the source is first read, so a
    file that does not exist goes unnoticed. *)
Theorem find_words_missing_cell (set_iter : gset string → list string)
    (fs : string → Path) (g : Grid.t) (path : string) :
  ¬ block_present g →
  1 ≤ Grid.max_size g →
  Finder.find_words set_iter fs g path = Raise IndexError.
Proof.
  intros Hblock Hbig. unfold Finder.find_words, Finder.find_words_in.
  rewrite (proj2 (Z.ltb_ge _ _)) by done. unfold Grid.lines.
  destruct (Grid.vertical_lines g) as [V|e] eqn:HV.
  - destruct Hblock. apply vertical_lines_Ok_block. by exists V.
  - by apply vertical_lines_Raise in HV as ->.
Qed.

Lemma find_words_missing_cell_witness :
  ¬ block_present grid_ragged ∧
  1 ≤ Grid.max_size grid_ragged ∧
  Finder.find_words elements (λ _, no_such_file) grid_ragged "nowhere.txt"
  = Raise IndexError.
Proof.
  assert (¬ block_present grid_ragged) as Hblock.
  { intros H. by destruct (H 1 1 ltac:(done) ltac:(done)). }
  assert (1 ≤ Grid.max_size grid_ragged) as Hbig
    by (vm_compute; discriminate).
  split; [exact Hblock|]. split; [exact Hbig|].
  exact (find_words_missing_cell elements (λ _, no_such_file) grid_ragged
           "nowhere.txt" Hblock Hbig).
Defined.

(** X21. On a rectangular grid and a source that yields non-empty words
    and stops, [find_words] misses nothing: every yielded word that occurs
    in a line is returned; and a returned word that does not hold the
    separator ["|"] does occur in a line. *)
Theorem find_words_complete (set_iter : gset string → list string)
    (g : Grid.t) (words : gen string) :
  (∀ X, set_iter X ≡ₚ elements X) →
  rectangular g →
  gen_end words = None →
  (∀ w, w ∈ gen_items words → w ≠ "") →
  ∃ ls found,
    Grid.lines set_iter g = Ok ls ∧
    Finder.find_words_in set_iter g words = Ok found ∧
    (∀ w l, w ∈ gen_items words → l ∈ ls → substring w l → w ∈ found) ∧
    (∀ w, w ∈ found → str_in "|" w = false →
          ∃ l, l ∈ ls ∧ substring w l).
Proof.
  intros Hperm Hrect Hend Hne.
  pose proof (fits_lines g Hrect set_iter Hperm) as Hfits.
  eexists _, _. split; [by apply lines_closed|].
  destruct (find_words_in_clean set_iter g words Hrect Hend Hne)
    as (ls & Hls & Hfound).
  rewrite (lines_closed g Hrect) in Hls. injection Hls as <-.
  split; [exact Hfound|]. split.
  - intros w l Hw Hl Hsub%str_in_substring.
    apply list_elem_of_In, filter_In. split; [by apply list_elem_of_In|].
    destruct (Hfits l Hl) as [Hlen Hletters].
    rewrite !andb_true_iff. split; [split|].
    + apply Z.leb_le. apply str_in_len in Hsub. lia.
    + specialize (Hne w Hw). destruct w as [|c w]; [done|]. simpl.
      apply bool_decide_eq_true, Hletters. by eapply str_in_first.
    + by eapply str_in_str_join.
  - intros w [Hw Htest]%list_elem_of_In%filter_In Hsep.
    apply list_elem_of_In in Hw.
    rewrite !andb_true_iff in Htest. destruct Htest as [_ Hin].
    apply str_in_str_join_inv in Hin as (l & Hl & Hin); [|by apply Hne|done].
    exists l. by rewrite <- str_in_substring.
Qed.

Lemma find_words_complete_witness :
  (∀ X : gset string, elements X ≡ₚ elements X) ∧
  rectangular grid_abcd ∧
  gen_end (gen_of_list ["ad"; "cb"; "dog"]) = None ∧
  (∀ w, w ∈ gen_items (gen_of_list ["ad"; "cb"; "dog"]) → w ≠ "") ∧
  ∃ ls found,
    Grid.lines elements grid_abcd = Ok ls ∧
    Finder.find_words_in elements grid_abcd
      (gen_of_list ["ad"; "cb"; "dog"]) = Ok found ∧
    (∀ w l, w ∈ gen_items (gen_of_list ["ad"; "cb"; "dog"]) → l ∈ ls →
            substring w l → w ∈ found) ∧
    (∀ w, w ∈ found → str_in "|" w = false →
          ∃ l, l ∈ ls ∧ substring w l).
Proof.
  assert (∀ X : gset string, elements X ≡ₚ elements X) as Hperm
    by (intros X; reflexivity).
  assert (rectangular grid_abcd) as Hrect by rect.
  assert (∀ w, w ∈ gen_items (gen_of_list ["ad"; "cb"; "dog"]) → w ≠ "")
    as Hne.
  { intros w Hw. simpl in Hw.
    repeat (apply elem_of_cons in Hw as [->|Hw]; [done|]).
    by apply elem_of_nil in Hw. }
  split; [exact Hperm|]. split; [exact Hrect|]. split; [reflexivity|].
  split; [exact Hne|].
  exact (find_words_complete elements grid_abcd
           (gen_of_list ["ad"; "cb"; "dog"]) Hperm Hrect eq_refl Hne).
Defined.
